(** * dkisonas/scraping: the vote automation script, embedded and verified

    The repository holds two variants of one Node.js script:
    - [src/index.js], the rate-based variant (votes per hour, batch of 1..5);
    - the script shipped next to the Dockerfile, the time-boxed variant
      (vote window, configured main-vote percentage, signal handlers).

    The embedding is shallow.  Every source function becomes a function of an
    error-and-state monad [M]: the state holds the vote ledger and a trace of
    the observable actions (console lines, page calls, sleeps, file writes);
    an exception is the [Throw] result.  The browser page, the clock and
    [Math.random] are external: each call site reads its answer from an
    environment record, so a run is a function of the answers it was given.

    Numbers are mathematical: counters and milliseconds are in [Z], a draw of
    [Math.random()] is a rational [r] with [0 <= r < 1], and arithmetic on
    them is exact (no double rounding).  Target identifiers are strings.
    The object [saveVoteLog] counts in is a finite map of own properties
    below [Object.prototype], as [{}] is.  [browser.close()] and
    [fs.writeFileSync] are taken to succeed. *)

From Stdlib Require Import ZArith QArith Qround String List Lia Lqa Bool.
From stdpp Require Import base option list strings gmap.

Local Open Scope string_scope.
Local Open Scope list_scope.
Local Open Scope Z_scope.

(** ** Results, state and trace *)

(** A JavaScript call either returns or throws; the payload of [Throw] is
    the [message] of the error object. *)
Inductive result (A : Type) : Type :=
| Ok (a : A)
| Throw (e : string).
Arguments Ok {A} a.
Arguments Throw {A} e.

(** One entry of [voteLog.votes]: [{ buttonId, timestamp }].  [buttonId] is
    [None] when the source's array read was out of range ([undefined]). *)
Record vote : Type := mkVote {
  buttonId : option string;
  timestamp : string
}.

(** A property value of the [votesByCandidate] object. *)
Inductive jsval : Type :=
| JNum (n : Z)
| JStr (s : string).

(** [voteLog.statistics] after [saveVoteLog]. *)
Record stats : Type := mkStats {
  totalVotes : Z;
  votesByCandidate : gmap string jsval
}.

(** The document handed to [JSON.stringify]: the whole [voteLog]. *)
Record document : Type := mkDoc {
  doc_votes : list vote;
  doc_statistics : stats
}.

(** Console lines, one constructor per template in the source. *)
Inductive message : Type :=
| MsgNavigationFailed (attempt retries : Z) (err : string)
    (* `Navigation failed. Attempt ${i + 1} of ${retries}. Error: ...` *)
| MsgRetrying                 (* 'Retrying after delay...' *)
| MsgMaxRetries               (* 'Maximum navigation retries exceeded.' *)
| MsgConsentSkipped           (* 'Consent button not found or not loaded in time, skipping...' *)
| MsgCookieSkipped            (* 'Cookie button not found or not loaded in time, skipping...' *)
| MsgConsentDone              (* 'Consent handling completed or skipped.' *)
| MsgButtonClicked (id : string) (nth : Z)
    (* `Button clicked with data-id: ${buttonId}. Vote ${i + 1} of this session.` *)
| MsgVoteCounted              (* 'Vote counted successfully. Confirmation visible.' *)
| MsgNotConfirmed             (* 'Confirmation not visible or vote not counted.' *)
| MsgButtonNotFound (id : string)
    (* `Vote button not found for data-id: ${buttonId}.` *)
| MsgVotingError (err : string)       (* 'Error during voting:' *)
| MsgSaved (path : string)            (* `Vote log and statistics saved to ...` *)
| MsgShuttingDown             (* 'Gracefully shutting down...' *)
| MsgOutsideWindow            (* 'Outside voting window, waiting...' *)
| MsgNewSession               (* 'Starting a new browser session with a new IP...' *)
| MsgNavigationGaveUp         (* 'Failed to navigate to the target page after retries.' *)
| MsgWaitingTop20             (* 'Waiting for the top 20 list to load...' *)
| MsgWillVote (n : Z)
    (* 'Will vote ' + votesInThisBatch + ' times in this batch.'
       (' time in this batch.' in the time-boxed variant) *)
| MsgBatchCompleted (total : Z)
    (* `Batch completed. Total votes after this batch: ${totalVotes}` *)
| MsgVotingProcessError (err : string)
    (* 'Error occurred during voting process:' *)
| MsgClosing                  (* 'Closing the browser...' *)
| MsgClosed                   (* 'Browser closed.' *)
| MsgWaiting (seconds : Q)
    (* `Waiting ${delay / 1000} seconds before the next session...` *)
| MsgCompleted (total : Z).   (* `Voting completed. Total votes: ${totalVotes}` *)

(** What the script does to the outside world, in order. *)
Inductive event : Type :=
| ELog (m : message)                    (* console.log / console.error *)
| ESleep (ms : Q)                       (* await sleep(ms) *)
| ELaunch                               (* initializeBrowserWithNewIP *)
| EClose                                (* browser.close() *)
| EGoto (url : string)                  (* page.goto *)
| EWaitFor (selector : string)          (* page.waitForSelector *)
| EClickSelector (selector : string)    (* page.click *)
| EQuery (selector : string)            (* page.$ *)
| EScroll                               (* button.evaluate(scrollIntoView) *)
| EClick                                (* button.click() *)
| EEval (selector : string)             (* page.$eval *)
| EWrite (path : string) (d : document) (* fs.writeFileSync *).

(** The mutable state: the [voteLog] object and the trace. *)
Record store : Type := mkStore {
  votes : list vote;
  statistics : option stats;   (* [None] is the initial empty object *)
  trace : list event
}.

Definition initial_store : store := mkStore [] None [].

(** ** The monad *)

Definition M (A : Type) : Type := store -> result A * store.

Definition ret {A} (a : A) : M A := fun s => (Ok a, s).

Definition bind {A B} (m : M A) (k : A -> M B) : M B :=
  fun s => match m s with
           | (Ok a, s') => k a s'
           | (Throw e, s') => (Throw e, s')
           end.

Notation "x <- m ;; k" := (bind m (fun x => k))
  (at level 100, m at next level, right associativity).
Notation "m ;;; k" := (bind m (fun _ => k))
  (at level 100, right associativity).

(** [try { m } catch (error) { h error }] *)
Definition try_catch {A} (m : M A) (h : string -> M A) : M A :=
  fun s => match m s with
           | (Ok a, s') => (Ok a, s')
           | (Throw e, s') => h e s'
           end.

Definition throw {A} (e : string) : M A := fun s => (Throw e, s).

Definition emit (ev : event) : M unit :=
  fun s => (Ok tt, mkStore (votes s) (statistics s) (trace s ++ [ev])).

Definition log (m : message) : M unit := emit (ELog m).

(** [const sleep = (ms) => new Promise(resolve => setTimeout(resolve, ms))]:
    awaiting it only lets time pass. *)
Definition sleep (ms : Q) : M unit := emit (ESleep ms).

(** An external call: it is recorded, then it returns or throws what the
    environment says. *)
Definition call {A} (ev : event) (answer : result A) : M A :=
  fun s => (answer, mkStore (votes s) (statistics s) (trace s ++ [ev])).

(** [voteLog.votes.push(v)] *)
Definition push_vote (v : vote) : M unit :=
  fun s => (Ok tt, mkStore (votes s ++ [v]) (statistics s) (trace s)).

(** ** [for (let i = 0; i < bound; i++) body]

    The body either falls through to the next round or leaves the enclosing
    function with [return v].  The loop makes [Z.to_nat bound] rounds unless
    the body returns or throws; [None] is falling out of the loop. *)
Inductive ctl (R : Type) : Type :=
| Next
| Return (v : R).
Arguments Next {R}.
Arguments Return {R} v.

Fixpoint for_from {R} (rounds : nat) (i : Z) (body : Z -> M (ctl R))
  : M (option R) :=
  match rounds with
  | O => ret None
  | S rounds' =>
      c <- body i ;;
      match c with
      | Return v => ret (Some v)
      | Next => for_from rounds' (i + 1) body
      end
  end.

Definition for_loop {R} (bound : Z) (body : Z -> M (ctl R)) : M (option R) :=
  for_from (Z.to_nat bound) 0 body.

(** ** [randomInterval]

    [const randomInterval = (min, max) =>
       Math.floor(Math.random() * (max - min + 1) + min);]
    with [r] the draw of [Math.random()]. *)
Definition randomInterval (r : Q) (min max : Z) : Z :=
  Qfloor (r * inject_Z (max - min + 1) + inject_Z min).

(** A value [Math.random()] can return. *)
Definition unit_draw (r : Q) : Prop := (0 <= r)%Q /\ (r < 1)%Q.

(** ** [navigateWithRetry] *)

(** What the page and the random source answer during one navigation. *)
Record nav_env : Type := mkNavEnv {
  goto_answer : Z -> result unit;   (* outcome of the [page.goto] of round [i] *)
  backoff_draw : Z -> Q             (* draw for the backoff after round [i] *)
}.

(** [navigateWithRetry(page, url, retries = 3, timeout = 60000)].
    [timeout] only parameterises the page call, whose outcome is the
    environment's.  The result is [None] for JavaScript's [undefined], which
    the function yields when the loop ends without a [return]. *)
Definition navigateWithRetry (env : nav_env) (url : string)
    (retries : Z) (timeout : Z) : M (option bool) :=
  for_loop retries (fun i =>
    try_catch
      (call (EGoto url) (goto_answer env i) ;;;
       ret (Return true))
      (fun error =>
         log (MsgNavigationFailed (i + 1) retries error) ;;;
         if i <? retries - 1 then
           log MsgRetrying ;;;
           sleep (inject_Z (randomInterval (backoff_draw env i) 5000 10000)) ;;;
           ret Next
         else
           log MsgMaxRetries ;;;
           ret (Return false))).

(** ** Configuration: [CONFIG.selectors] *)
Record selectors : Type := mkSelectors {
  consentButton : string;
  cookieButton : string;
  mainVoteButtonId : string;
  alternativeVoteButtonIds : list string;
  voteConfirmation : string;
  top20List : string
}.

(** ** [handleConsents] *)

Record consent_env : Type := mkConsentEnv {
  consent_wait : result unit;
  consent_click : result unit;
  cookie_wait : result unit;
  cookie_click : result unit
}.

Definition handleConsents (env : consent_env) (sel : selectors) : M unit :=
  try_catch
    (call (EWaitFor (consentButton sel)) (consent_wait env) ;;;
     call (EClickSelector (consentButton sel)) (consent_click env))
    (fun _ => log MsgConsentSkipped) ;;;
  try_catch
    (call (EWaitFor (cookieButton sel)) (cookie_wait env) ;;;
     call (EClickSelector (cookieButton sel)) (cookie_click env))
    (fun _ => log MsgCookieSkipped) ;;;
  log MsgConsentDone.

(** ** One round of the voting loop *)

(** [arr[i]]: [undefined] outside the array. *)
Definition js_index {A} (l : list A) (i : Z) : option A :=
  if i <? 0 then None else l !! Z.to_nat i.

(** [`${x}`] for a string or [undefined]. *)
Definition template (x : option string) : string :=
  match x with
  | Some s => s
  | None => "undefined"
  end.

Definition dquote : string := String (Ascii.ascii_of_nat 34) EmptyString.

(** [`button[data-id="${buttonId}"]`] *)
Definition buttonSelector (id : option string) : string :=
  "button[data-id=" ++ dquote ++ template id ++ dquote ++ "]".

(** [selectors.alternativeVoteButtonIds[Math.floor(Math.random() *
    selectors.alternativeVoteButtonIds.length)]] with [r] the draw. *)
Definition pickAlternative (sel : selectors) (r : Q) : option string :=
  js_index (alternativeVoteButtonIds sel)
    (Qfloor (r * inject_Z (Z.of_nat (length (alternativeVoteButtonIds sel))))).

(** [voteForMain ? selectors.mainVoteButtonId : <alternative>] *)
Definition chooseButtonId (voteForMain : bool) (sel : selectors) (r : Q)
  : option string :=
  if voteForMain then Some (mainVoteButtonId sel) else pickAlternative sel r.

(** The answers of the page, the clock and the random source in one round. *)
Record vote_env : Type := mkVoteEnv {
  main_draw : Q;                   (* first [Math.random()] *)
  alt_draw : Q;                    (* second [Math.random()], for the alternative *)
  wait_answer : result unit;       (* [page.waitForSelector(buttonSelector)] *)
  query_answer : result bool;      (* [page.$]: [true] a handle, [false] is [null] *)
  scroll_answer : result unit;     (* [button.evaluate] *)
  click_answer : result unit;      (* [button.click()] *)
  display_answer : result string;  (* computed [display] of the confirmation
                                      element; [$eval] throws without one *)
  now : string;                    (* [new Date().toISOString()] *)
  delay_draw : Q                   (* draw of the pacing [randomInterval] *)
}.

Section VoteRound.
(** The two variants differ in the test that decides [voteForMain]. *)
Variable voteForMain : Q -> bool.
Variable sel : selectors.
Variables minDelay maxDelay : Z.

(** The loop body, index.js lines 85-120 (lines 118-152 of the other
    variant are the same but for the first one). *)
Definition vote_round (env : vote_env) (i : Z) : M (ctl bool) :=
  let buttonId := chooseButtonId (voteForMain (main_draw env)) sel (alt_draw env) in
  call (EWaitFor (buttonSelector buttonId)) (wait_answer env) ;;;
  button <- call (EQuery (buttonSelector buttonId)) (query_answer env) ;;
  if button : bool then
    call EScroll (scroll_answer env) ;;;
    sleep 1000 ;;;
    call EClick (click_answer env) ;;;
    log (MsgButtonClicked (template buttonId) (i + 1)) ;;;
    sleep 1500 ;;;
    displayStyle <- call (EEval (voteConfirmation sel)) (display_answer env) ;;
    let confirmationVisible := String.eqb displayStyle "block" in
    (if confirmationVisible then
       log MsgVoteCounted ;;;
       push_vote (mkVote buttonId (now env))
     else
       log MsgNotConfirmed) ;;;
    sleep (inject_Z (randomInterval (delay_draw env) minDelay maxDelay)) ;;;
    ret Next
  else
    log (MsgButtonNotFound (template buttonId)) ;;;
    ret Next.

(** [for (let i = 0; i < times; i++) { ... } return true;] *)
Definition vote_loop (envs : Z -> vote_env) (times : Z) : M bool :=
  for_loop times (fun i => vote_round (envs i) i) ;;;
  ret true.
End VoteRound.

(** ** The object used as a counter table in [saveVoteLog]

    [{}] inherits from [Object.prototype]: reading a key that is not an own
    property finds the inherited member when there is one. *)
Definition object_prototype_members : list string :=
  [ "constructor"; "__defineGetter__"; "__defineSetter__"; "hasOwnProperty";
    "__lookupGetter__"; "__lookupSetter__"; "isPrototypeOf";
    "propertyIsEnumerable"; "toString"; "valueOf"; "__proto__";
    "toLocaleString" ].

Inductive property : Type :=
| Own (v : jsval)
| Inherited (k : string)
| Undefined.

(** [acc[k]] as an expression. *)
Definition js_get (acc : gmap string jsval) (k : string) : property :=
  match acc !! k with
  | Some v => Own v
  | None =>
      if bool_decide (k ∈ object_prototype_members) then Inherited k
      else Undefined
  end.

(** String conversion of an inherited member: [__proto__] reads as
    [Object.prototype] itself, the others are built-in functions. *)
Definition inherited_to_string (k : string) : string :=
  if String.eqb k "__proto__" then "[object Object]"
  else "function " ++ (if String.eqb k "constructor" then "Object" else k)
         ++ "() { [native code] }".

(** [(x || 0) + 1]: [undefined], [0] and the empty string are falsy; [+]
    concatenates as soon as one side is not a number. *)
Definition or_zero_plus_one (x : property) : jsval :=
  match x with
  | Undefined => JNum 1
  | Own (JNum n) => JNum (n + 1)
  | Own (JStr s) => if String.eqb s "" then JNum 1 else JStr (s ++ "1")
  | Inherited k => JStr (inherited_to_string k ++ "1")
  end.

(** [acc[k] = v] for a primitive [v]: the [__proto__] setter ignores it, any
    other key becomes an own property. *)
Definition js_set (acc : gmap string jsval) (k : string) (v : jsval)
  : gmap string jsval :=
  if String.eqb k "__proto__" then acc else <[k := v]> acc.

(** [acc[vote.buttonId] = (acc[vote.buttonId] || 0) + 1; return acc;] *)
Definition count_vote (acc : gmap string jsval) (v : vote) : gmap string jsval :=
  let k := template (buttonId v) in
  js_set acc k (or_zero_plus_one (js_get acc k)).

(** [voteLog.votes.reduce(..., {})] *)
Definition voteCounts (vs : list vote) : gmap string jsval :=
  foldl count_vote ∅ vs.

(** ** [saveVoteLog]

    [file] builds the file name from the timestamp; the variants differ in
    it.  The write is taken to succeed. *)
Definition saveVoteLog (file : string -> string) (iso : string) : M unit :=
  fun s =>
    let logFilePath := file iso in
    let totalVotes := Z.of_nat (length (votes s)) in
    let st := mkStats totalVotes (voteCounts (votes s)) in
    (emit (EWrite logFilePath (mkDoc (votes s) st)) ;;;
     log (MsgSaved logFilePath))
      (mkStore (votes s) (Some st) (trace s)).

(** ** Processes and signals *)

Inductive signal : Type := SIGINT | SIGTERM | SIGHUP.

Inductive process_end : Type :=
| Exited (code : Z)          (* [process.exit(code)] *)
| Uncaught (e : string)      (* an exception left the handler *)
| Killed (sig : signal).     (* no handler of the script: it gets no chance
                                to run anything before the process ends *)

(** A handler runs to completion on the store it finds; [iso] is the clock
    reading it makes. *)
Definition handler : Type := string -> store -> process_end * store.




(** The answers one round of the outer loop consumes. *)
Record session_env : Type := mkSessionEnv {
  hour : Z;                        (* [now.getUTCHours()] (time-boxed variant) *)
  window_draw : Q;                 (* draw of the out-of-window sleep *)
  launch_answer : result unit;     (* [initializeBrowserWithNewIP] *)
  nav : nav_env;
  consent : consent_env;
  top20_answer : result unit;      (* [page.waitForSelector(top20List)] *)
  batch_draw : Q;                  (* draw of the batch size (index.js) *)
  vote_envs : Z -> vote_env
}.

(** [if (!navigationSuccessful)]: [undefined] and [false] are falsy. *)
Definition truthy (x : option bool) : bool :=
  match x with
  | Some b => b
  | None => false
  end.

(** ** The rate-based variant, [src/index.js] *)
Module IndexJs.

Record config : Type := mkConfig {
  votesPerHour : Q;          (* CONFIG.voting.votesPerHour *)
  maxVotes : Z;              (* CONFIG.voting.maxVotes *)
  targetPage : string;       (* CONFIG.urls.targetPage *)
  cfg_selectors : selectors; (* CONFIG.selectors *)
  dirname : string           (* __dirname *)
}.

(** [const voteForMain = Math.random() > 0.2;] *)
Definition voteForMain (r : Q) : bool :=
  if Qlt_le_dec (2 # 10) r then true else false.

(** Lines 82-127: the loop inside [try], the [catch] logs and rethrows. *)
Definition voteMultipleTimes (envs : Z -> vote_env) (sel : selectors)
    (times minDelay maxDelay : Z) : M bool :=
  try_catch
    (vote_loop voteForMain sel minDelay maxDelay envs times)
    (fun error =>
       log (MsgVotingError error) ;;;
       throw error).

(** [path.join(__dirname, `vote_log${new Date().toISOString()}.json`)] *)
Definition logFilePath (cfg : config) (iso : string) : string :=
  dirname cfg ++ "/" ++ "vote_log" ++ iso ++ ".json".

(** [3600000 / CONFIG.voting.votesPerHour] *)
Definition delayBetweenSessions (cfg : config) : Q :=
  (3600000 / votesPerHour cfg)%Q.

(** One round of [while (totalVotes < CONFIG.voting.maxVotes)], lines
    158-201; the value is [totalVotes] at the end of the round. *)
Definition main_round (cfg : config) (env : session_env) (totalVotes : Z)
  : M Z :=
  log MsgNewSession ;;;
  call ELaunch (launch_answer env) ;;;
  navigationSuccessful <-
    navigateWithRetry (nav env) (targetPage cfg) 3 60000 ;;
  if negb (truthy navigationSuccessful) then
    log MsgNavigationGaveUp ;;;
    emit EClose ;;;
    ret totalVotes
  else
    totalVotes' <-
      try_catch
        (handleConsents (consent env) (cfg_selectors cfg) ;;;
         sleep 1000 ;;;
         log MsgWaitingTop20 ;;;
         call (EWaitFor (top20List (cfg_selectors cfg))) (top20_answer env) ;;;
         let votesInThisBatch := randomInterval (batch_draw env) 1 5 in
         log (MsgWillVote votesInThisBatch) ;;;
         votingSuccessful <-
           voteMultipleTimes (vote_envs env) (cfg_selectors cfg)
             votesInThisBatch 3000 7000 ;;
         if votingSuccessful : bool then
           log (MsgBatchCompleted (totalVotes + votesInThisBatch)) ;;;
           ret (totalVotes + votesInThisBatch)
         else
           ret totalVotes)
        (fun error =>
           log (MsgVotingProcessError error) ;;;
           ret totalVotes) ;;
    log MsgClosing ;;;
    emit EClose ;;;
    log MsgClosed ;;;
    (if totalVotes' <? maxVotes cfg then
       log (MsgWaiting (delayBetweenSessions cfg / 1000)%Q) ;;;
       sleep (delayBetweenSessions cfg)
     else
       ret tt) ;;;
    ret totalVotes'.

(** The [while] loop; [None] when [fuel] rounds did not reach the quota. *)
Fixpoint main_loop (fuel : nat) (cfg : config) (envs : nat -> session_env)
    (k : nat) (totalVotes : Z) : M (option Z) :=
  match fuel with
  | O => ret (if totalVotes <? maxVotes cfg then None else Some totalVotes)
  | S fuel' =>
      if totalVotes <? maxVotes cfg then
        t <- main_round cfg (envs k) totalVotes ;;
        main_loop fuel' cfg envs (S k) t
      else
        ret (Some totalVotes)
  end.

(** The script body, lines 149-208. *)
Definition main (fuel : nat) (cfg : config) (envs : nat -> session_env)
    (iso : string) : M (option unit) :=
  done <- main_loop fuel cfg envs 0%nat 0 ;;
  match done with
  | None => ret None
  | Some totalVotes =>
      log (MsgCompleted totalVotes) ;;;
      saveVoteLog (logFilePath cfg) iso ;;;
      ret (Some tt)
  end.

(** The script never calls [process.on]. *)
Definition signal_handlers : list (signal * handler) := [].

End IndexJs.

(** ** The time-boxed variant (the script shipped with the Dockerfile) *)
Module TimeBoxed.

Record config : Type := mkConfig {
  mainVotePercentage : Q;      (* CONFIG.voting.mainVotePercentage *)
  totalVotingPeriodDays : Q;   (* CONFIG.voting.totalVotingPeriodDays *)
  maxVotes : Z;                (* CONFIG.voting.maxVotes *)
  window_start : Z;            (* CONFIG.schedule.voteWindow.start *)
  window_end : Z;              (* CONFIG.schedule.voteWindow.end *)
  targetPage : string;
  cfg_selectors : selectors;
  dirname : string
}.

(** [const mainVotePercentage = CONFIG.voting.mainVotePercentage / 100;
    const voteForMain = Math.random() < mainVotePercentage;] *)
Definition voteForMain (cfg : config) (r : Q) : bool :=
  if Qlt_le_dec r (mainVotePercentage cfg / 100) then true else false.

(** Lines 114-155: the loop, without a [try]. *)
Definition voteMultipleTimes (cfg : config) (envs : Z -> vote_env)
    (sel : selectors) (times minDelay maxDelay : Z) : M bool :=
  vote_loop (voteForMain cfg) sel minDelay maxDelay envs times.

(** [path.join(__dirname, 'logs', `vote_log_${...}.json`)] *)
Definition logFilePath (cfg : config) (iso : string) : string :=
  dirname cfg ++ "/" ++ "logs" ++ "/" ++ "vote_log_" ++ iso ++ ".json".

(** [saveAndExit]: log, [saveVoteLog()], [process.exit(0)]. *)
Definition saveAndExit (cfg : config) : handler :=
  fun iso s =>
    match (log MsgShuttingDown ;;; saveVoteLog (logFilePath cfg) iso) s with
    | (Ok _, s') => (Exited 0, s')
    | (Throw e, s') => (Uncaught e, s')
    end.

(** [process.on('SIGTERM', saveAndExit); process.on('SIGINT', saveAndExit);] *)
Definition signal_handlers (cfg : config) : list (signal * handler) :=
  [ (SIGTERM, saveAndExit cfg); (SIGINT, saveAndExit cfg) ].

(** [isWithinVoteWindow], with [currentHour] the clock's UTC hour. *)
Definition isWithinVoteWindow (cfg : config) (currentHour : Z) : bool :=
  (window_start cfg <=? currentHour) && (currentHour <? window_end cfg).

(** [totalVotingPeriodMs / CONFIG.voting.maxVotes] *)
Definition delayBetweenBatches (cfg : config) : Q :=
  (totalVotingPeriodDays cfg * 24 * 60 * 60 * 1000 / inject_Z (maxVotes cfg))%Q.

(** One round of the [while] loop, lines 205-254. *)
Definition main_round (cfg : config) (env : session_env) (totalVotes : Z)
  : M Z :=
  if negb (isWithinVoteWindow cfg (hour env)) then
    let delay := randomInterval (window_draw env) 60000 120000 in
    log MsgOutsideWindow ;;;
    sleep (inject_Z delay) ;;;
    ret totalVotes
  else
    log MsgNewSession ;;;
    call ELaunch (launch_answer env) ;;;
    navigationSuccessful <-
      navigateWithRetry (nav env) (targetPage cfg) 3 60000 ;;
    if negb (truthy navigationSuccessful) then
      log MsgNavigationGaveUp ;;;
      emit EClose ;;;
      ret totalVotes
    else
      totalVotes' <-
        try_catch
          (handleConsents (consent env) (cfg_selectors cfg) ;;;
           sleep 1000 ;;;
           log MsgWaitingTop20 ;;;
           call (EWaitFor (top20List (cfg_selectors cfg))) (top20_answer env) ;;;
           let votesInThisBatch := 5 in
           log (MsgWillVote votesInThisBatch) ;;;
           votingSuccessful <-
             voteMultipleTimes cfg (vote_envs env) (cfg_selectors cfg)
               votesInThisBatch 3000 7000 ;;
           if votingSuccessful : bool then
             log (MsgBatchCompleted (totalVotes + votesInThisBatch)) ;;;
             ret (totalVotes + votesInThisBatch)
           else
             ret totalVotes)
          (fun error =>
             log (MsgVotingProcessError error) ;;;
             ret totalVotes) ;;
      log MsgClosing ;;;
      emit EClose ;;;
      log MsgClosed ;;;
      (if totalVotes' <? maxVotes cfg then
         log (MsgWaiting (delayBetweenBatches cfg / 1000)%Q) ;;;
         sleep (delayBetweenBatches cfg)
       else
         ret tt) ;;;
      ret totalVotes'.

Fixpoint main_loop (fuel : nat) (cfg : config) (envs : nat -> session_env)
    (k : nat) (totalVotes : Z) : M (option Z) :=
  match fuel with
  | O => ret (if totalVotes <? maxVotes cfg then None else Some totalVotes)
  | S fuel' =>
      if totalVotes <? maxVotes cfg then
        t <- main_round cfg (envs k) totalVotes ;;
        main_loop fuel' cfg envs (S k) t
      else
        ret (Some totalVotes)
  end.

Definition main (fuel : nat) (cfg : config) (envs : nat -> session_env)
    (iso : string) : M (option unit) :=
  done <- main_loop fuel cfg envs 0%nat 0 ;;
  match done with
  | None => ret None
  | Some totalVotes =>
      log (MsgCompleted totalVotes) ;;;
      saveVoteLog (logFilePath cfg) iso ;;;
      ret (Some tt)
  end.

End TimeBoxed.

(** ** Vocabulary of the properties

    What a round's answers amount to, read off the environment alone. *)

(** The click of the round took place: the button appeared, [page.$] gave
    a handle, scrolling and clicking went through. *)
Definition clicked (env : vote_env) : bool :=
  match wait_answer env, query_answer env, scroll_answer env, click_answer env with
  | Ok _, Ok true, Ok _, Ok _ => true
  | _, _, _, _ => false
  end.

(** The confirmation element's computed display is ['block']. *)
Definition confirmation_block (env : vote_env) : bool :=
  match display_answer env with
  | Ok d => String.eqb d "block"
  | Throw _ => false
  end.

(** The exception a round ends with, if a page call of it throws. *)
Definition round_error (env : vote_env) : option string :=
  match wait_answer env with
  | Throw e => Some e
  | Ok _ =>
      match query_answer env with
      | Throw e => Some e
      | Ok false => None
      | Ok true =>
          match scroll_answer env with
          | Throw e => Some e
          | Ok _ =>
              match click_answer env with
              | Throw e => Some e
              | Ok _ =>
                  match display_answer env with
                  | Throw e => Some e
                  | Ok _ => None
                  end
              end
          end
      end
  end.

(** The target of a round: the [buttonId] of the source. *)
Definition chosen_id (voteForMain : Q -> bool) (sel : selectors)
    (env : vote_env) : option string :=
  chooseButtonId (voteForMain (main_draw env)) sel (alt_draw env).

(** The record a round with target [id] adds to the ledger. *)
Definition round_record (id : option string) (env : vote_env) : list vote :=
  if clicked env && confirmation_block env then [mkVote id (now env)] else [].

(** The records of rounds [i], [i+1], ... ([rounds] of them). *)
Fixpoint batch_records (choose : vote_env -> option string)
    (envs : Z -> vote_env) (i : Z) (rounds : nat) : list vote :=
  match rounds with
  | O => []
  | S rounds' =>
      round_record (choose (envs i)) (envs i)
        ++ batch_records choose envs (i + 1) rounds'
  end.

(** Number of [page.goto] calls in a trace. *)
Fixpoint goto_calls (t : list event) : nat :=
  match t with
  | [] => 0
  | EGoto _ :: t' => S (goto_calls t')
  | _ :: t' => goto_calls t'
  end.

(** Number of browser launches in a trace. *)
Fixpoint launches (t : list event) : nat :=
  match t with
  | [] => 0
  | ELaunch :: t' => S (launches t')
  | _ :: t' => launches t'
  end.

(** The documents written to disk, in order. *)
Fixpoint written (t : list event) : list document :=
  match t with
  | [] => []
  | EWrite _ d :: t' => d :: written t'
  | _ :: t' => written t'
  end.

(** Some attempt among the first three reaches the page. *)
Definition goto_ok (env : nav_env) (i : Z) : bool :=
  match goto_answer env i with
  | Ok _ => true
  | Throw _ => false
  end.

Definition nav_reaches (env : nav_env) : bool :=
  goto_ok env 0 || goto_ok env 1 || goto_ok env 2.


(** [m] ends with [res] and adds [app] to the ledger, whatever the store. *)
Definition yields {A} (m : M A) (res : result A) (app : list vote) : Prop :=
  forall s, fst (m s) = res /\ votes (snd (m s)) = votes s ++ app.

(** ** Concrete inputs used in the examples *)

Definition example_selectors : selectors :=
  mkSelectors "#consent" "#cookie" "main" ["alt1"; "alt2"; "alt3"]
    "#confirmation" "#top20".

(** A round in which every page call goes through and the confirmation
    element shows [display]. *)
Definition example_round (display : string) : vote_env :=
  mkVoteEnv (1 # 2) (1 # 2) (Ok tt) (Ok true) (Ok tt) (Ok tt) (Ok display)
    "2024-09-01T10:00:00.000Z" (1 # 2).

(** A round in which the vote button does not appear within the wait:
    [page.waitForSelector] rejects after its timeout. *)
Definition missing_button_round : vote_env :=
  mkVoteEnv (1 # 2) (1 # 2) (Throw "Waiting for selector failed: 20000ms exceeded")
    (Ok false) (Ok tt) (Ok tt) (Ok "block")
    "2024-09-01T10:00:00.000Z" (1 # 2).

(** A batch whose first round misses the button; the others would go through. *)
Definition missing_button_envs (i : Z) : vote_env :=
  if i =? 0 then missing_button_round else example_round "block".

(** Navigation answers: the attempts listed in [failing] throw. *)
Definition example_nav (failing : list Z) : nav_env :=
  mkNavEnv
    (fun i => if bool_decide (i ∈ failing) then Throw "net::ERR_TIMED_OUT" else Ok tt)
    (fun _ => 1 # 2).


(** The index [Math.floor(Math.random() * alternativeVoteButtonIds.length)]. *)
Definition alternative_slot (sel : selectors) (r : Q) : Z :=
  Qfloor (r * inject_Z (Z.of_nat (length (alternativeVoteButtonIds sel)))).

(** The property key a record is counted under: [acc[vote.buttonId]]. *)
Definition count_key (v : vote) : string := template (buttonId v).

(** How many records of [vs] carry the key [k]. *)
Definition multiplicity (k : string) (vs : list vote) : Z :=
  Z.of_nat (count_occ string_dec (map count_key vs) k).

(** The sum of the numeric entries of a counter table. *)
Definition count_total (m : gmap string jsval) : Z :=
  map_fold (fun _ v acc => match v with JNum n => n + acc | JStr _ => acc end) 0 m.

(** No record is filed under a name that [{}] inherits. *)
Definition plain_keys (vs : list vote) : Prop :=
  Forall (fun v => count_key v ∉ object_prototype_members) vs.


Definition example_config : IndexJs.config :=
  IndexJs.mkConfig 60 100 "https://example.org/top20" example_selectors "/app".


(** A ledger of three confirmed votes, in the middle of a run. *)
Definition three_votes : store :=
  mkStore
    [ mkVote (Some "main") "2024-09-01T10:00:00.000Z";
      mkVote (Some "alt2") "2024-09-01T10:00:09.000Z";
      mkVote (Some "main") "2024-09-01T10:00:17.000Z" ]
    None
    [ ELog MsgNewSession; ELaunch ].

(** A ledger whose only record is filed under a name that [{}] inherits. *)
Definition inherited_key_ledger : store :=
  mkStore [ mkVote (Some "constructor") "2024-09-01T10:00:00.000Z" ] None [].

(** A round of the outer loop at UTC hour [h] in which the page answers
    every call and each of the votes is confirmed. *)
Definition example_session (h : Z) : session_env :=
  mkSessionEnv h (1 # 2) (Ok tt) (example_nav [])
    (mkConsentEnv (Ok tt) (Ok tt) (Ok tt) (Ok tt)) (Ok tt) (1 # 2)
    (fun _ => example_round "block").

(** The same round, but the confirmation element is gone in the third vote
    ([$eval] throws) after two confirmed votes. *)
Definition broken_session (h : Z) : session_env :=
  mkSessionEnv h (1 # 2) (Ok tt) (example_nav [])
    (mkConsentEnv (Ok tt) (Ok tt) (Ok tt) (Ok tt)) (Ok tt) (1 # 2)
    (fun i => if i =? 2
              then mkVoteEnv (1 # 2) (1 # 2) (Ok tt) (Ok true) (Ok tt) (Ok tt)
                     (Throw "failed to find element matching selector")
                     "2024-09-01T10:00:00.000Z" (1 # 2)
              else example_round "block").

(** The quota rule of one round of the outer loop [round], whose batch has
    [n] votes with targets chosen by [choose]: the total grows by [n] when
    navigation succeeds and every round of the batch runs through; it stays
    when navigation gives up, when the list does not load, or when the
    batch throws in round [k], and the ledger then keeps the records of
    the rounds before [k]. *)
Definition credits_whole_batches (round : Z -> M Z) (env : session_env)
    (n : Z) (choose : vote_env -> option string) : Prop :=
  forall (total : Z) (s : store),
    let r := round total s in
    (nav_reaches (nav env) = true -> top20_answer env = Ok tt ->
       (forall i, 0 <= i < n -> round_error (vote_envs env i) = None) ->
       fst r = Ok (total + n)
       /\ votes (snd r)
          = votes s ++ batch_records choose (vote_envs env) 0 (Z.to_nat n))
    /\ (forall (k : Z) (e : string),
          nav_reaches (nav env) = true -> top20_answer env = Ok tt ->
          0 <= k < n ->
          (forall i, 0 <= i < k -> round_error (vote_envs env i) = None) ->
          round_error (vote_envs env k) = Some e ->
          fst r = Ok total
          /\ votes (snd r)
             = votes s ++ batch_records choose (vote_envs env) 0 (Z.to_nat k))
    /\ (nav_reaches (nav env) = false ->
          fst r = Ok total /\ votes (snd r) = votes s)
    /\ (forall e : string,
          nav_reaches (nav env) = true -> top20_answer env = Throw e ->
          fst r = Ok total /\ votes (snd r) = votes s).

(** ** Vocabulary of the further properties *)

(** Number of [browser.close()] calls in a trace. *)
Fixpoint closes (t : list event) : nat :=
  match t with
  | [] => 0
  | EClose :: t' => S (closes t')
  | _ :: t' => closes t'
  end.


(** Events that neither open nor close a browser nor write a file. *)
Definition quiet_event (ev : event) : bool :=
  match ev with
  | ELaunch | EClose | EWrite _ _ => false
  | _ => true
  end.

(** From [s] to [s'] the ledger only grew, the summary was not touched, no
    file was written and no browser was opened or closed. *)
Definition quiet (s s' : store) : Prop :=
  (exists added, votes s' = votes s ++ added)
  /\ statistics s' = statistics s
  /\ written (trace s') = written (trace s)
  /\ launches (trace s') = launches (trace s)
  /\ closes (trace s') = closes (trace s).

Definition keeps_quiet {A} (m : M A) : Prop :=
  forall s, quiet s (snd (m s)).

Definition never_throws {A} (m : M A) : Prop :=
  forall s, exists a, fst (m s) = Ok a.

(** Whenever [m] returns, its value satisfies [P]. *)
Definition returns {A} (m : M A) (P : A -> Prop) : Prop :=
  forall s a, fst (m s) = Ok a -> P a.

(** From [s] to [s'] the ledger only grew, neither summary nor disk was
    touched, and [opened] browsers were opened and [closed] closed. *)
Definition session_delta (opened closed : nat) (s s' : store) : Prop :=
  (exists added, votes s' = votes s ++ added)
  /\ statistics s' = statistics s
  /\ written (trace s') = written (trace s)
  /\ launches (trace s') = (launches (trace s) + opened)%nat
  /\ closes (trace s') = (closes (trace s) + closed)%nat.

(** [m] does not throw and changes the store by [session_delta]. *)
Definition changes {A} (m : M A) (opened closed : nat) : Prop :=
  never_throws m /\ forall s, session_delta opened closed s (snd (m s)).

(** From [s] to [s'] the ledger only grew and neither the summary nor the
    disk was touched. *)
Definition calm (s s' : store) : Prop :=
  (exists added, votes s' = votes s ++ added)
  /\ statistics s' = statistics s
  /\ written (trace s') = written (trace s).

(** The summary [saveVoteLog] derives from a ledger. *)
Definition summary_of (vs : list vote) : stats :=
  mkStats (Z.of_nat (length vs)) (voteCounts vs).


(** A small campaign: a quota of seven votes. *)
Definition small_config : IndexJs.config :=
  IndexJs.mkConfig 60 7 "https://example.org/top20" example_selectors "/app".

Definition small_timeboxed_config : TimeBoxed.config :=
  TimeBoxed.mkConfig 70 30 7 8 22 "https://example.org/top20"
    example_selectors "/app".

(** A window that wraps around midnight, written as 22 to 6. *)
Definition night_config : TimeBoxed.config :=
  TimeBoxed.mkConfig 70 30 7 22 6 "https://example.org/top20"
    example_selectors "/app".

(** A session whose browser does not come up. *)
Definition failed_launch_session : session_env :=
  mkSessionEnv 10 (1 # 2) (Throw "Failed to launch the browser process")
    (example_nav []) (mkConsentEnv (Ok tt) (Ok tt) (Ok tt) (Ok tt)) (Ok tt)
    (1 # 2) (fun _ => example_round "block").

(** What handling one overlay does to the page: wait for the button, click
    it if it appeared, log the skip if the wait or the click threw. *)
Definition overlay_events (selector : string) (wait click : result unit)
    (skipped : message) : list event :=
  EWaitFor selector ::
  match wait with
  | Throw _ => [ELog skipped]
  | Ok _ =>
      EClickSelector selector ::
      match click with
      | Throw _ => [ELog skipped]
      | Ok _ => []
      end
  end.


(** A record names a configured target. *)
Definition names_target (sel : selectors) (v : vote) : Prop :=
  exists id, buttonId v = Some id
             /\ (id = mainVoteButtonId sel \/ id ∈ alternativeVoteButtonIds sel).


(** ** Proxy and browser set-up

    [initializeBrowserWithNewIP] in detail; the outer loop above sees it as
    the one call [ELaunch]. *)

(** [CONFIG.proxy] (index.js) or the [PROXY_*] variables of the environment
    (time-boxed variant); a missing entry reads as [undefined]. *)
Record proxy_fields : Type := mkProxy {
  username : option string;
  password : option string;
  endpoint : option string
}.

(** [`http://${username}:${password}@${endpoint}`] *)
Definition createProxyUrl (c : proxy_fields) : string :=
  "http://" ++ template (username c) ++ ":" ++ template (password c)
    ++ "@" ++ template (endpoint c).

(** The calls to the proxy and browser libraries. *)
Inductive setup_call : Type :=
| AnonymizeProxy (oldProxyUrl : string)           (* proxyChain.anonymizeProxy *)
| PuppeteerLaunch (headless : bool) (args : list string)  (* puppeteer.launch *)
| NewPage.                                        (* browser.newPage() *)

(** What the libraries answer. *)
Record setup_env : Type := mkSetupEnv {
  anonymize_answer : result string;   (* the forwarding proxy URL *)
  puppeteer_answer : result unit;
  new_page_answer : result unit
}.

(** [initializeBrowserWithNewIP]: the result and the calls made, in order. *)
Definition initializeBrowserWithNewIP (env : setup_env) (c : proxy_fields)
  : result unit * list setup_call :=
  let oldProxyUrl := createProxyUrl c in
  match anonymize_answer env with
  | Throw e => (Throw e, [AnonymizeProxy oldProxyUrl])
  | Ok newProxyUrl =>
      let launch :=
        PuppeteerLaunch true
          [ "--no-sandbox"; "--disable-setuid-sandbox";
            ("--proxy-server=" ++ newProxyUrl)%string ] in
      match puppeteer_answer env with
      | Throw e => (Throw e, [AnonymizeProxy oldProxyUrl; launch])
      | Ok _ =>
          match new_page_answer env with
          | Throw e => (Throw e, [AnonymizeProxy oldProxyUrl; launch; NewPage])
          | Ok _ => (Ok tt, [AnonymizeProxy oldProxyUrl; launch; NewPage])
          end
      end
  end.

(** The browser launches among the calls. *)
Fixpoint browser_launches (calls : list setup_call) : list (list string) :=
  match calls with
  | [] => []
  | PuppeteerLaunch _ args :: calls' => args :: browser_launches calls'
  | _ :: calls' => browser_launches calls'
  end.

(** The trace from [s] to [s'] only grew. *)
Definition trace_grows (s s' : store) : Prop :=
  exists mid, trace s' = trace s ++ mid.

Definition extends_trace {A} (m : M A) : Prop :=
  forall s, trace_grows s (snd (m s)).

(** How a session that got past navigation ends: the browser is closed,
    and the pause before the next session follows only while the total
    [t] is below the quota. *)
Definition session_end_events (t quota : Z) (pause : Q) : list event :=
  [ ELog MsgClosing; EClose; ELog MsgClosed ]
    ++ (if t <? quota
        then [ ELog (MsgWaiting (pause / 1000)%Q); ESleep pause ]
        else []).

(** The events of a navigation whose three attempts threw [e0], [e1], [e2]. *)
Definition failed_navigation_events (env : nav_env) (url : string)
    (e0 e1 e2 : string) : list event :=
  [ EGoto url; ELog (MsgNavigationFailed 1 3 e0); ELog MsgRetrying;
    ESleep (inject_Z (randomInterval (backoff_draw env 0) 5000 10000));
    EGoto url; ELog (MsgNavigationFailed 2 3 e1); ELog MsgRetrying;
    ESleep (inject_Z (randomInterval (backoff_draw env 1) 5000 10000));
    EGoto url; ELog (MsgNavigationFailed 3 3 e2); ELog MsgMaxRetries ].

(** * Proofs *)

(** ** The calculus of [yields] *)

Lemma yields_ret {A} (a : A) : yields (ret a) (Ok a) [].
Proof. intros s. simpl. now rewrite app_nil_r. Qed.

Lemma yields_throw {A} (e : string) : yields (@throw A e) (Throw e) [].
Proof. intros s. simpl. now rewrite app_nil_r. Qed.

Lemma yields_emit (ev : event) : yields (emit ev) (Ok tt) [].
Proof. intros s. simpl. now rewrite app_nil_r. Qed.

Lemma yields_log (m : message) : yields (log m) (Ok tt) [].
Proof. apply yields_emit. Qed.

Lemma yields_sleep (ms : Q) : yields (sleep ms) (Ok tt) [].
Proof. apply yields_emit. Qed.

Lemma yields_call {A} (ev : event) (answer : result A) :
  yields (call ev answer) answer [].
Proof. intros s. simpl. now rewrite app_nil_r. Qed.

Lemma yields_push (v : vote) : yields (push_vote v) (Ok tt) [v].
Proof. intros s. now simpl. Qed.

Lemma yields_bind {A B} (m : M A) (k : A -> M B) a l1 res l2 :
  yields m (Ok a) l1 -> yields (k a) res l2 ->
  yields (bind m k) res (l1 ++ l2).
Proof.
  intros Hm Hk s. unfold bind. destruct (Hm s) as [Hr Hv].
  destruct (m s) as [r s1]. simpl in Hr, Hv. subst r.
  destruct (Hk s1) as [Hr' Hv']. split; [exact Hr'|].
  now rewrite Hv', Hv, app_assoc.
Qed.

(** Sequencing after a step that adds nothing to the ledger. *)
Lemma yields_then {A B} (m : M A) (k : A -> M B) a res l :
  yields m (Ok a) [] -> yields (k a) res l -> yields (bind m k) res l.
Proof. intros Hm Hk. exact (yields_bind m k a [] res l Hm Hk). Qed.

Lemma yields_bind_throw {A B} (m : M A) (k : A -> M B) e l :
  yields m (Throw e) l -> yields (bind m k) (Throw e) l.
Proof.
  intros Hm s. unfold bind. destruct (Hm s) as [Hr Hv].
  destruct (m s) as [r s1]. simpl in Hr, Hv. now subst r.
Qed.

Lemma yields_try_ok {A} (m : M A) (h : string -> M A) a l :
  yields m (Ok a) l -> yields (try_catch m h) (Ok a) l.
Proof.
  intros Hm s. unfold try_catch. destruct (Hm s) as [Hr Hv].
  destruct (m s) as [r s1]. simpl in Hr, Hv. now subst r.
Qed.

Lemma yields_try_catch {A} (m : M A) (h : string -> M A) e l1 res l2 :
  yields m (Throw e) l1 -> yields (h e) res l2 ->
  yields (try_catch m h) res (l1 ++ l2).
Proof.
  intros Hm Hh s. unfold try_catch. destruct (Hm s) as [Hr Hv].
  destruct (m s) as [r s1]. simpl in Hr, Hv. subst r.
  destruct (Hh s1) as [Hr' Hv']. split; [exact Hr'|].
  now rewrite Hv', Hv, app_assoc.
Qed.

Lemma yields_eq {A} (m : M A) res res' l l' :
  yields m res l -> res = res' -> l = l' -> yields m res' l'.
Proof. now intros H -> ->. Qed.

(** Two outcomes of one computation agree. *)
Lemma yields_fun {A} (m : M A) res res' l l' :
  yields m res l -> yields m res' l' -> res = res' /\ l = l'.
Proof.
  intros H H'. destruct (H initial_store) as [Hr Hv].
  destruct (H' initial_store) as [Hr' Hv']. split; [congruence|].
  rewrite Hv in Hv'. now apply app_inv_head in Hv'.
Qed.

(** ** One round of the voting loop *)

Section VoteRoundFacts.
Variable voteForMain : Q -> bool.
Variable sel : selectors.
Variables minDelay maxDelay : Z.

(** A round ends by falling through to the next one or by the exception
    of its first failing page call, and adds exactly [round_record]. *)
Lemma vote_round_yields (env : vote_env) (i : Z) :
  yields (vote_round voteForMain sel minDelay maxDelay env i)
    (match round_error env with Some e => Throw e | None => Ok Next end)
    (round_record (chosen_id voteForMain sel env) env).
Proof.
  intros s. unfold vote_round, round_error, round_record, clicked,
    confirmation_block, chosen_id.
  unfold bind, call, log, sleep, emit, push_vote, ret.
  destruct (wait_answer env) as [[]|e]; simpl; [|now rewrite app_nil_r].
  destruct (query_answer env) as [[|]|e]; simpl; try now rewrite app_nil_r.
  destruct (scroll_answer env) as [[]|e]; simpl; [|now rewrite app_nil_r].
  destruct (click_answer env) as [[]|e]; simpl; [|now rewrite app_nil_r].
  destruct (display_answer env) as [d|e]; simpl; [|now rewrite app_nil_r].
  destruct (String.eqb d "block"); simpl; [easy|now rewrite app_nil_r].
Qed.

Lemma round_record_length (id : option string) (env : vote_env) :
  (length (round_record id env) <= 1)%nat.
Proof. unfold round_record. destruct (_ && _); simpl; lia. Qed.

Lemma round_error_no_record (id : option string) (env : vote_env) e :
  round_error env = Some e -> round_record id env = [].
Proof.
  unfold round_error, round_record, clicked, confirmation_block.
  destruct (wait_answer env) as [[]|]; [|easy].
  destruct (query_answer env) as [[|]|]; try easy.
  destruct (scroll_answer env) as [[]|]; [|easy].
  destruct (click_answer env) as [[]|]; [|easy].
  destruct (display_answer env); [easy|]. now simpl.
Qed.

Lemma batch_records_length envs i rounds :
  (length (batch_records (chosen_id voteForMain sel) envs i rounds) <= rounds)%nat.
Proof.
  revert i. induction rounds as [|n IH]; intros i; simpl; [lia|].
  rewrite length_app. specialize (IH (i + 1)).
  pose proof (round_record_length (chosen_id voteForMain sel (envs i)) (envs i)). lia.
Qed.

(** The rounds of the loop, from round [i] on: either all [rounds] of
    them run, or the loop stops at the first round that throws. *)
Lemma vote_rounds_complete envs rounds : forall i,
  (forall j, i <= j < i + Z.of_nat rounds -> round_error (envs j) = None) ->
  yields (for_from rounds i (fun j => vote_round voteForMain sel minDelay maxDelay (envs j) j))
    (Ok None) (batch_records (chosen_id voteForMain sel) envs i rounds).
Proof.
  induction rounds as [|n IH]; intros i Hok.
  - apply yields_ret.
  - cbn [for_from batch_records].
    eapply yields_bind.
    + eapply yields_eq; [apply vote_round_yields| |reflexivity].
      rewrite Hok by lia. reflexivity.
    + cbn. apply IH. intros j Hj. apply Hok. lia.
Qed.

Lemma vote_rounds_abort envs rounds : forall i (k : nat) e,
  (k < rounds)%nat ->
  (forall j, i <= j < i + Z.of_nat k -> round_error (envs j) = None) ->
  round_error (envs (i + Z.of_nat k)) = Some e ->
  yields (for_from rounds i (fun j => vote_round voteForMain sel minDelay maxDelay (envs j) j))
    (Throw e) (batch_records (chosen_id voteForMain sel) envs i k).
Proof.
  induction rounds as [|n IH]; intros i k e Hk Hok Herr; [lia|].
  cbn [for_from]. destruct k as [|k].
  - simpl in Herr. rewrite Z.add_0_r in Herr.
    eapply yields_eq; [apply yields_bind_throw|reflexivity|].
    + eapply yields_eq; [apply vote_round_yields| |reflexivity].
      rewrite Herr. reflexivity.
    + simpl. eapply round_error_no_record; eassumption.
  - cbn [batch_records]. eapply yields_bind.
    + eapply yields_eq; [apply vote_round_yields| |reflexivity].
      rewrite Hok by lia. reflexivity.
    + cbn. apply IH; [lia| |].
      * intros j Hj. apply Hok. lia.
      * replace (i + 1 + Z.of_nat k) with (i + Z.of_nat (S k)) by lia.
        exact Herr.
Qed.

(** Whatever the page answers, the loop adds at most one record per
    round it was asked for. *)
Lemma vote_rounds_bound envs rounds : forall i s,
  exists appended,
    votes (snd (for_from rounds i (fun j => vote_round voteForMain sel minDelay maxDelay (envs j) j) s))
      = votes s ++ appended
    /\ (length appended <= rounds)%nat.
Proof.
  induction rounds as [|n IH]; intros i s.
  - exists []. simpl. now rewrite app_nil_r.
  - cbn [for_from]. unfold bind.
    destruct (vote_round_yields (envs i) i s) as [Hr Hv].
    destruct (vote_round voteForMain sel minDelay maxDelay (envs i) i s) as [r s1]. simpl in Hr, Hv.
    pose proof (round_record_length (chosen_id voteForMain sel (envs i)) (envs i)) as Hlen.
    destruct r as [[|v]|e].
    + destruct (IH (i + 1) s1) as (l & Hl & Hn).
      exists (round_record (chosen_id voteForMain sel (envs i)) (envs i) ++ l). split.
      * now rewrite Hl, Hv, app_assoc.
      * rewrite length_app. lia.
    + exists (round_record (chosen_id voteForMain sel (envs i)) (envs i)). simpl. split; [easy|lia].
    + exists (round_record (chosen_id voteForMain sel (envs i)) (envs i)). simpl. split; [easy|lia].
Qed.
End VoteRoundFacts.

(** ** The batch executor *)

(** C1. For every batch size [n >= 0], [voteMultipleTimes] adds at most [n]
    records to the ledger; every round adds at most one record, and adds it
    only when the confirmation element showed ['block']. *)
Theorem batch_appends_at_most_n
    (envs : Z -> vote_env) (sel : selectors) (n minDelay maxDelay : Z)
    (s : store) :
  0 <= n ->
  (exists appended,
      votes (snd (IndexJs.voteMultipleTimes envs sel n minDelay maxDelay s))
        = votes s ++ appended
      /\ Z.of_nat (length appended) <= n)
  /\ (forall env i s0, exists added,
        votes (snd (vote_round IndexJs.voteForMain sel minDelay maxDelay env i s0))
          = votes s0 ++ added
        /\ (length added <= 1)%nat
        /\ (added <> [] -> display_answer env = Ok "block")).
Proof.
  intros Hn. split.
  - unfold IndexJs.voteMultipleTimes, vote_loop, for_loop, try_catch, bind.
    destruct (vote_rounds_bound IndexJs.voteForMain sel minDelay maxDelay
                envs (Z.to_nat n) 0 s) as (l & Hl & Hlen).
    destruct (for_from _ _ _ s) as [[o|e] s1]; simpl in Hl |- *;
      exists l; (split; [exact Hl | lia]).
  - intros env i s0.
    exists (round_record (chosen_id IndexJs.voteForMain sel env) env).
    split; [apply vote_round_yields|]. split; [apply round_record_length|].
    unfold round_record, confirmation_block.
    destruct (clicked env); simpl; [|easy].
    destruct (display_answer env) as [d|e]; [|easy].
    destruct (String.eqb_spec d "block") as [->|]; easy.
Qed.

Lemma batch_appends_at_most_n_witness :
  0 <= 3 /\
  exists appended,
    votes (snd (IndexJs.voteMultipleTimes
                  (fun i => example_round (if i =? 1 then "none" else "block"))
                  example_selectors 3 3000 7000 initial_store))
      = votes initial_store ++ appended
    /\ Z.of_nat (length appended) <= 3.
Proof.
  split; [lia|].
  refine (proj1 (batch_appends_at_most_n
           (fun i => example_round (if i =? 1 then "none" else "block"))
           example_selectors 3 3000 7000 initial_store _)).
  lia.
Defined.

(** The same bound for the time-boxed variant. *)
Lemma timeboxed_batch_bound (cfg : TimeBoxed.config)
    (envs : Z -> vote_env) (sel : selectors) (n minDelay maxDelay : Z)
    (s : store) :
  0 <= n ->
  exists appended,
    votes (snd (TimeBoxed.voteMultipleTimes cfg envs sel n minDelay maxDelay s))
      = votes s ++ appended
    /\ Z.of_nat (length appended) <= n.
Proof.
  intros Hn.
  unfold TimeBoxed.voteMultipleTimes, vote_loop, for_loop, bind.
  destruct (vote_rounds_bound (TimeBoxed.voteForMain cfg) sel minDelay maxDelay
              envs (Z.to_nat n) 0 s) as (l & Hl & Hlen).
  destruct (for_from _ _ _ s) as [[o|e] s1]; simpl in Hl |- *;
    exists l; (split; [exact Hl | lia]).
Qed.

(** The trace is extended one event at a time; flatten such a trace. *)
Ltac flatten_trace := repeat rewrite <- app_assoc; cbn [app].

(** C2. In a round, the record (target identifier, timestamp) is added to
    the ledger exactly when the click took place and the confirmation
    element then showed ['block'].  When it shows anything else, the miss is
    logged, nothing is added, and the loop goes on with the next round. *)
Theorem vote_recorded_iff_confirmed
    (voteForMain : Q -> bool) (sel : selectors) (minDelay maxDelay : Z)
    (env : vote_env) (i : Z) (s : store) :
  let round := vote_round voteForMain sel minDelay maxDelay in
  let id := chooseButtonId (voteForMain (main_draw env)) sel (alt_draw env) in
  let s' := snd (round env i s) in
  (votes s' = votes s ++ [mkVote id (now env)]
     <-> clicked env = true /\ display_answer env = Ok "block")
  /\ (votes s' = votes s
        <-> ~ (clicked env = true /\ display_answer env = Ok "block"))
  /\ (forall d, clicked env = true -> display_answer env = Ok d -> d <> "block" ->
        fst (round env i s) = Ok Next
        /\ votes s' = votes s
        /\ trace s' = trace s ++
             [ EWaitFor (buttonSelector id); EQuery (buttonSelector id);
               EScroll; ESleep 1000; EClick;
               ELog (MsgButtonClicked (template id) (i + 1)); ESleep 1500;
               EEval (voteConfirmation sel); ELog MsgNotConfirmed;
               ESleep (inject_Z (randomInterval (delay_draw env) minDelay maxDelay)) ]
        /\ forall envs rounds, envs i = env ->
             for_from (S rounds) i (fun j => round (envs j) j) s
             = for_from rounds (i + 1) (fun j => round (envs j) j) s').
Proof.
  intros round id s'.
  assert (Hblock : confirmation_block env = true <-> display_answer env = Ok "block").
  { unfold confirmation_block. destruct (display_answer env) as [d|e]; [|easy].
    destruct (String.eqb_spec d "block") as [->|Hd]; [easy|].
    split; [easy|]. intros [= ->]. now contradiction Hd. }
  assert (Hv : votes s' = votes s ++ round_record id env)
    by apply vote_round_yields.
  assert (Hrec : round_record id env
                 = if clicked env && confirmation_block env
                   then [mkVote id (now env)] else []) by reflexivity.
  split; [|split].
  - rewrite Hv, Hrec, <- Hblock.
    destruct (clicked env), (confirmation_block env); simpl; split;
      try easy; try (intros []; easy).
    + intros H. apply app_inv_head in H. easy.
    + intros H. apply app_inv_head in H. easy.
    + intros H. apply app_inv_head in H. easy.
  - rewrite Hv, Hrec, <- Hblock.
    destruct (clicked env), (confirmation_block env); simpl;
      rewrite ?app_nil_r; split; try easy; try (intros H []; easy).
    + intros H. symmetry in H. rewrite <- (app_nil_r (votes s)) in H at 1.
      apply app_inv_head in H. easy.
    + intros H. now contradiction H.
  - intros d Hclick Hd Hne.
    assert (Hrun : round env i s
                   = (Ok Next,
                      mkStore (votes s) (statistics s)
                        (trace s ++
                           [ EWaitFor (buttonSelector id); EQuery (buttonSelector id);
                             EScroll; ESleep 1000; EClick;
                             ELog (MsgButtonClicked (template id) (i + 1));
                             ESleep 1500; EEval (voteConfirmation sel);
                             ELog MsgNotConfirmed;
                             ESleep (inject_Z (randomInterval (delay_draw env)
                                                 minDelay maxDelay)) ]))).
    { unfold round, vote_round, clicked in *. fold id.
      unfold bind, call, log, sleep, emit, push_vote, ret.
      destruct (wait_answer env) as [[]|]; [|discriminate Hclick].
      destruct (query_answer env) as [[|]|]; try discriminate Hclick.
      destruct (scroll_answer env) as [[]|]; [|discriminate Hclick].
      destruct (click_answer env) as [[]|]; [|discriminate Hclick].
      rewrite Hd. cbn.
      destruct (String.eqb_spec d "block") as [->|_]; [now contradiction Hne|].
      cbn. flatten_trace. reflexivity. }
    unfold s'. rewrite Hrun. cbn [fst snd votes trace].
    repeat split.
    intros envs rounds He. cbn [for_from]. unfold bind at 1.
    rewrite He. fold round. rewrite Hrun. reflexivity.
Qed.

Lemma vote_recorded_iff_confirmed_witness :
  clicked (example_round "none") = true
  /\ display_answer (example_round "none") = Ok "none"
  /\ "none" <> "block"
  /\ fst (vote_round IndexJs.voteForMain example_selectors 3000 7000
            (example_round "none") 0 initial_store) = Ok Next
  /\ votes (snd (vote_round IndexJs.voteForMain example_selectors 3000 7000
                   (example_round "none") 0 initial_store)) = [].
Proof.
  assert (Hc : clicked (example_round "none") = true) by reflexivity.
  assert (Hd : display_answer (example_round "none") = Ok "none") by reflexivity.
  assert (Hn : "none" <> "block") by discriminate.
  pose proof (proj2 (proj2 (vote_recorded_iff_confirmed IndexJs.voteForMain
                              example_selectors 3000 7000 (example_round "none")
                              0 initial_store)) "none" Hc Hd Hn) as (H1 & H2 & _).
  repeat split; assumption.
Defined.


(** When the button does not appear within the wait, [waitForSelector]
    throws and the exception leaves the loop: the rounds after it are not
    run. *)
Lemma wait_timeout_leaves_loop
    (voteForMain : Q -> bool) (sel : selectors) (minDelay maxDelay : Z)
    (envs : Z -> vote_env) (times : Z) (e : string) (s : store) :
  0 < times -> wait_answer (envs 0) = Throw e ->
  let id := chooseButtonId (voteForMain (main_draw (envs 0))) sel (alt_draw (envs 0)) in
  vote_loop voteForMain sel minDelay maxDelay envs times s
  = (Throw e,
     mkStore (votes s) (statistics s) (trace s ++ [EWaitFor (buttonSelector id)])).
Proof.
  intros Ht Hw id. unfold vote_loop, for_loop.
  destruct (Z.to_nat times) as [|n] eqn:E; [lia|].
  cbn [for_from]. unfold bind, vote_round, call. rewrite Hw. reflexivity.
Qed.

(** C5 (the code departs from it). A batch of three whose first round does
    not find the vote button within the wait: the exception of
    [waitForSelector] is logged by the [catch] and thrown again, and rounds
    two and three never run. *)
Theorem missing_button_aborts_batch :
  IndexJs.voteMultipleTimes missing_button_envs example_selectors 3 3000 7000
    initial_store
  = (Throw "Waiting for selector failed: 20000ms exceeded",
     mkStore [] None
       [ EWaitFor (buttonSelector (Some "main"));
         ELog (MsgVotingError "Waiting for selector failed: 20000ms exceeded") ]).
Proof. vm_compute. reflexivity. Qed.

(** ** Navigation with retry *)

Lemma goto_calls_app (t t' : list event) :
  goto_calls (t ++ t') = (goto_calls t + goto_calls t')%nat.
Proof.
  induction t as [|ev t IH]; [reflexivity|].
  destruct ev; simpl; rewrite IH; reflexivity.
Qed.

(** The three rounds of [navigateWithRetry(page, url, 3, timeout)], by the
    answers of [page.goto]. *)
Lemma navigateWithRetry_unfold (env : nav_env) (url : string) (timeout : Z)
    (s : store) :
  let failed i e :=
    [ EGoto url; ELog (MsgNavigationFailed (i + 1) 3 e) ] in
  let backoff i :=
    [ ELog MsgRetrying;
      ESleep (inject_Z (randomInterval (backoff_draw env i) 5000 10000)) ] in
  let out (b : bool) (t : list event) :=
    (Ok (Some b), mkStore (votes s) (statistics s) (trace s ++ t)) in
  navigateWithRetry env url 3 timeout s =
  match goto_answer env 0 with
  | Ok _ => out true [EGoto url]
  | Throw e0 =>
      match goto_answer env 1 with
      | Ok _ => out true (failed 0 e0 ++ backoff 0 ++ [EGoto url])
      | Throw e1 =>
          match goto_answer env 2 with
          | Ok _ =>
              out true (failed 0 e0 ++ backoff 0 ++ failed 1 e1 ++ backoff 1
                          ++ [EGoto url])
          | Throw e2 =>
              out false (failed 0 e0 ++ backoff 0 ++ failed 1 e1 ++ backoff 1
                           ++ failed 2 e2 ++ [ELog MsgMaxRetries])
          end
      end
  end.
Proof.
  intros failed backoff out. unfold navigateWithRetry, for_loop.
  change (Z.to_nat 3) with 3%nat. cbn [for_from].
  change (3 - 1) with 2. change (0 + 1) with 1. change (1 + 1) with 2.
  change (0 <? 2) with true. change (1 <? 2) with true.
  change (2 <? 2) with false. cbv iota.
  unfold bind, try_catch, call, log, sleep, emit, ret, out, failed, backoff.
  cbn [fst snd votes statistics trace].
  destruct (goto_answer env 0) as [[]|e0]; [reflexivity|].
  destruct (goto_answer env 1) as [[]|e1];
    [cbn [votes statistics trace app]; flatten_trace; reflexivity|].
  destruct (goto_answer env 2) as [[]|e2];
    cbn [votes statistics trace app]; flatten_trace; reflexivity.
Qed.

(** C3. [navigateWithRetry] with three attempts returns [true] at the first
    attempt that succeeds, without calling [page.goto] again (so also when
    attempts 1 and 2 fail and attempt 3 succeeds); when all three fail it
    returns [false], does not throw, and has called [page.goto] three
    times. *)
Theorem navigateWithRetry_three_attempts
    (env : nav_env) (url : string) (timeout : Z) (s : store) :
  let r := navigateWithRetry env url 3 timeout s in
  (forall k, 0 <= k < 3 ->
     (forall j, 0 <= j < k -> goto_ok env j = false) ->
     goto_ok env k = true ->
     fst r = Ok (Some true)
     /\ goto_calls (trace (snd r)) = (goto_calls (trace s) + Z.to_nat (k + 1))%nat)
  /\ ((forall j, 0 <= j < 3 -> goto_ok env j = false) ->
      fst r = Ok (Some false)
      /\ goto_calls (trace (snd r)) = (goto_calls (trace s) + 3)%nat).
Proof.
  intros r. unfold r. rewrite navigateWithRetry_unfold. unfold goto_ok.
  split.
  - intros k Hk Hfail Hok.
    assert (Hcases : k = 0 \/ k = 1 \/ k = 2) by lia.
    destruct Hcases as [-> | [-> | ->]].
    + destruct (goto_answer env 0); [|discriminate Hok].
      cbn. rewrite goto_calls_app. split; reflexivity.
    + pose proof (Hfail 0 ltac:(lia)) as H0.
      destruct (goto_answer env 0); [discriminate H0|].
      destruct (goto_answer env 1); [|discriminate Hok].
      cbn. rewrite goto_calls_app. split; reflexivity.
    + pose proof (Hfail 0 ltac:(lia)) as H0.
      pose proof (Hfail 1 ltac:(lia)) as H1.
      destruct (goto_answer env 0); [discriminate H0|].
      destruct (goto_answer env 1); [discriminate H1|].
      destruct (goto_answer env 2); [|discriminate Hok].
      cbn. rewrite goto_calls_app. split; reflexivity.
  - intros Hfail.
    pose proof (Hfail 0 ltac:(lia)) as H0.
    pose proof (Hfail 1 ltac:(lia)) as H1.
    pose proof (Hfail 2 ltac:(lia)) as H2.
    destruct (goto_answer env 0); [discriminate H0|].
    destruct (goto_answer env 1); [discriminate H1|].
    destruct (goto_answer env 2); [discriminate H2|].
    cbn. rewrite goto_calls_app. split; reflexivity.
Qed.

Lemma navigateWithRetry_three_attempts_witness :
  (0 <= 2 < 3
   /\ (forall j, 0 <= j < 2 -> goto_ok (example_nav [0; 1]) j = false)
   /\ goto_ok (example_nav [0; 1]) 2 = true
   /\ fst (navigateWithRetry (example_nav [0; 1]) "https://example.org/top20" 3 60000
             initial_store) = Ok (Some true))
  /\ ((forall j, 0 <= j < 3 -> goto_ok (example_nav [0; 1; 2]) j = false)
      /\ fst (navigateWithRetry (example_nav [0; 1; 2]) "https://example.org/top20"
                3 60000 initial_store) = Ok (Some false)
      /\ goto_calls (trace (snd (navigateWithRetry (example_nav [0; 1; 2])
                                   "https://example.org/top20" 3 60000
                                   initial_store))) = 3%nat).
Proof.
  assert (H01 : forall j, 0 <= j < 2 -> goto_ok (example_nav [0; 1]) j = false).
  { intros j Hj. assert (Hc : j = 0 \/ j = 1) by lia.
    destruct Hc as [-> | ->]; reflexivity. }
  assert (H012 : forall j, 0 <= j < 3 -> goto_ok (example_nav [0; 1; 2]) j = false).
  { intros j Hj. assert (Hc : j = 0 \/ j = 1 \/ j = 2) by lia.
    destruct Hc as [-> | [-> | ->]]; reflexivity. }
  split.
  - split; [lia|]. split; [exact H01|]. split; [reflexivity|].
    exact (proj1 (proj1 (navigateWithRetry_three_attempts (example_nav [0; 1])
                           "https://example.org/top20" 60000 initial_store)
                    2 ltac:(lia) H01 eq_refl)).
  - split; [exact H012|].
    exact (proj2 (navigateWithRetry_three_attempts (example_nav [0; 1; 2])
                    "https://example.org/top20" 60000 initial_store) H012).
Defined.

(** ** [randomInterval] *)

Lemma Qfloor_bounds (x : Q) (lo hi : Z) :
  (inject_Z lo <= x)%Q -> (x < inject_Z hi + 1)%Q -> lo <= Qfloor x <= hi.
Proof.
  intros Hlo Hhi. split.
  - rewrite <- (Qfloor_Z lo). now apply Qfloor_resp_le.
  - assert (H : (inject_Z (Qfloor x) < inject_Z (hi + 1))%Q).
    { eapply Qle_lt_trans; [apply Qfloor_le|].
      rewrite inject_Z_plus. exact Hhi. }
    rewrite <- Zlt_Qlt in H. lia.
Qed.

Lemma randomInterval_in_range (r : Q) (min max : Z) :
  min <= max -> unit_draw r -> min <= randomInterval r min max <= max.
Proof.
  intros Hle [H0 H1]. unfold randomInterval.
  set (n := max - min + 1).
  assert (Hn : (0 < inject_Z n)%Q).
  { change 0%Q with (inject_Z 0). rewrite <- Zlt_Qlt. lia. }
  apply Qfloor_bounds.
  - rewrite <- (Qplus_0_l (inject_Z min)) at 1.
    apply Qplus_le_l. apply Qmult_le_0_compat; [exact H0 | now apply Qlt_le_weak].
  - assert (Hm : (r * inject_Z n < inject_Z n)%Q).
    { rewrite <- (Qmult_1_l (inject_Z n)) at 2. now apply Qmult_lt_compat_r. }
    assert (E : (inject_Z max + 1 == inject_Z n + inject_Z min)%Q).
    { unfold n, Qeq. simpl. lia. }
    rewrite E. now apply Qplus_lt_l.
Qed.






(** ** The choice of the target *)

Lemma timeboxed_voteForMain_spec (cfg : TimeBoxed.config) (r : Q) :
  TimeBoxed.voteForMain cfg r = true
  <-> (r < TimeBoxed.mainVotePercentage cfg / 100)%Q.
Proof.
  unfold TimeBoxed.voteForMain.
  destruct (Qlt_le_dec r (TimeBoxed.mainVotePercentage cfg / 100)) as [H|H].
  - easy.
  - split; [discriminate|]. intros H'. exfalso. lra.
Qed.







(** ** The summary of [saveVoteLog] *)

Lemma voteCounts_snoc (vs : list vote) (v : vote) :
  voteCounts (vs ++ [v]) = count_vote (voteCounts vs) v.
Proof. unfold voteCounts. now rewrite foldl_app. Qed.

Lemma multiplicity_snoc (k : string) (vs : list vote) (v : vote) :
  multiplicity k (vs ++ [v])
  = multiplicity k vs + (if decide (count_key v = k) then 1 else 0).
Proof.
  unfold multiplicity. rewrite map_app, count_occ_app. simpl.
  destruct (string_dec (count_key v) k), (decide (count_key v = k));
    try contradiction; lia.
Qed.

Lemma multiplicity_nonneg (k : string) (vs : list vote) : 0 <= multiplicity k vs.
Proof. unfold multiplicity. lia. Qed.

Lemma plain_key_not_proto (v : vote) :
  count_key v ∉ object_prototype_members ->
  String.eqb (count_key v) "__proto__" = false.
Proof.
  intros H. apply String.eqb_neq. intros E. apply H. rewrite E.
  unfold object_prototype_members. set_solver.
Qed.

(** On plain keys the table holds, under every key, the number of records
    filed under it, and no entry for a key without records. *)
Lemma voteCounts_plain (vs : list vote) :
  plain_keys vs ->
  forall k, voteCounts vs !! k
            = if multiplicity k vs =? 0 then None
              else Some (JNum (multiplicity k vs)).
Proof.
  induction vs as [|v vs IH] using rev_ind; intros Hplain k.
  - reflexivity.
  - unfold plain_keys in Hplain. rewrite Forall_app, Forall_singleton in Hplain.
    destruct Hplain as [Hvs Hv].
    specialize (IH Hvs).
    rewrite voteCounts_snoc, multiplicity_snoc. unfold count_vote.
    fold (count_key v). unfold js_set, js_get.
    rewrite (plain_key_not_proto v Hv).
    pose proof (multiplicity_nonneg k vs) as Hk. revert Hk.
    destruct (decide (count_key v = k)) as [<-|Hne].
    + intros Hk. rewrite lookup_insert_eq. rewrite IH.
      destruct (Z.eqb_spec (multiplicity (count_key v) vs) 0) as [E|E].
      * rewrite bool_decide_eq_false_2 by exact Hv. rewrite E. reflexivity.
      * simpl. destruct (Z.eqb_spec (multiplicity (count_key v) vs + 1) 0);
          [lia|reflexivity].
    + intros _. rewrite lookup_insert_ne by exact Hne. rewrite Z.add_0_r. apply IH.
Qed.

Lemma count_total_insert_fresh (m : gmap string jsval) (k : string) (n : Z) :
  m !! k = None -> count_total (<[k := JNum n]> m) = n + count_total m.
Proof.
  intros Hk. unfold count_total.
  rewrite map_fold_insert_L; [reflexivity| |exact Hk].
  intros j1 j2 [n1|s1] [n2|s2] y _ _ _; lia.
Qed.

Lemma count_total_update (m : gmap string jsval) (k : string) (n n' : Z) :
  m !! k = Some (JNum n) ->
  count_total (<[k := JNum n']> m) = count_total m + (n' - n).
Proof.
  intros Hk.
  rewrite <- (insert_delete_eq m k (JNum n')).
  rewrite <- (insert_delete_id m k (JNum n) Hk) at 2.
  rewrite !count_total_insert_fresh by apply lookup_delete_eq. lia.
Qed.

(** On plain keys the counts add up to the number of records. *)
Lemma voteCounts_total (vs : list vote) :
  plain_keys vs -> count_total (voteCounts vs) = Z.of_nat (length vs).
Proof.
  induction vs as [|v vs IH] using rev_ind; intros Hplain.
  - reflexivity.
  - unfold plain_keys in Hplain. rewrite Forall_app, Forall_singleton in Hplain.
    destruct Hplain as [Hvs Hv].
    pose proof (voteCounts_plain _ Hvs (count_key v)) as Hold.
    specialize (IH Hvs).
    rewrite length_app, Nat2Z.inj_add. simpl. rewrite <- IH.
    rewrite voteCounts_snoc. unfold count_vote.
    fold (count_key v). unfold js_set, js_get.
    rewrite (plain_key_not_proto v Hv).
    pose proof (multiplicity_nonneg (count_key v) vs) as Hk.
    destruct (Z.eqb_spec (multiplicity (count_key v) vs) 0) as [E|E].
    + rewrite Hold. rewrite bool_decide_eq_false_2 by exact Hv. simpl.
      rewrite count_total_insert_fresh by exact Hold. lia.
    + rewrite Hold. simpl.
      rewrite (count_total_update _ _ (multiplicity (count_key v) vs))
        by exact Hold.
      lia.
Qed.

(** What [saveVoteLog] leaves behind and writes. *)
Lemma saveVoteLog_run (file : string -> string) (iso : string) (s : store) :
  let st := mkStats (Z.of_nat (length (votes s))) (voteCounts (votes s)) in
  saveVoteLog file iso s
  = (Ok tt,
     mkStore (votes s) (Some st)
       (trace s ++ [EWrite (file iso) (mkDoc (votes s) st); ELog (MsgSaved (file iso))])).
Proof.
  intros st. unfold saveVoteLog, bind, emit, log, emit. cbn.
  flatten_trace. reflexivity.
Qed.

(** For a ledger of [k] records filed under plain keys, the summary has
    [totalVotes = k], per-key counts equal to the multiplicities, counts
    that add up to [k], and the records are written as they are. *)
Lemma saveVoteLog_summary_plain (file : string -> string) (iso : string) (s : store) :
  plain_keys (votes s) ->
  exists st : stats,
    snd (saveVoteLog file iso s)
    = mkStore (votes s) (Some st)
        (trace s ++ [EWrite (file iso) (mkDoc (votes s) st); ELog (MsgSaved (file iso))])
    /\ totalVotes st = Z.of_nat (length (votes s))
    /\ (forall k, votesByCandidate st !! k
                  = if multiplicity k (votes s) =? 0 then None
                    else Some (JNum (multiplicity k (votes s))))
    /\ count_total (votesByCandidate st) = Z.of_nat (length (votes s)).
Proof.
  intros Hplain. eexists. rewrite saveVoteLog_run. cbn [snd].
  split; [reflexivity|]. cbn [totalVotes votesByCandidate].
  split; [reflexivity|]. split.
  - now apply voteCounts_plain.
  - now apply voteCounts_total.
Qed.

(** C8 (the code departs from it). A ledger with one record whose target
    identifier is ["constructor"]: [totalVotes] is 1 and the record is
    written unchanged, but the entry of the identifier in
    [votesByCandidate] is a string, not the count 1, and the numeric counts
    add up to 0.  (For identifiers that [{}] does not inherit, see
    [saveVoteLog_summary_plain].) *)
Theorem saveVoteLog_inherited_key :
  let s' := snd (saveVoteLog (IndexJs.logFilePath example_config)
                   "2024-09-01T11:00:00.000Z" inherited_key_ledger) in
  exists st : stats,
    statistics s' = Some st
    /\ written (trace s') = [mkDoc (votes inherited_key_ledger) st]
    /\ totalVotes st = 1
    /\ multiplicity "constructor" (votes inherited_key_ledger) = 1
    /\ votesByCandidate st !! "constructor"
       = Some (JStr "function Object() { [native code] }1")
    /\ count_total (votesByCandidate st) = 0.
Proof.
  intros s'. unfold s'. rewrite saveVoteLog_run. eexists.
  split; [reflexivity|]. split; [reflexivity|].
  split; [reflexivity|]. split; [reflexivity|].
  split; [reflexivity|].
  cbn [votesByCandidate]. vm_compute. reflexivity.
Qed.

(** ** Signals *)

Lemma written_app (t t' : list event) :
  written (t ++ t') = written t ++ written t'.
Proof.
  induction t as [|ev t IH]; [reflexivity|].
  destruct ev; simpl; rewrite ?IH; reflexivity.
Qed.





(** ** The outer loop *)

Lemma launches_app (t t' : list event) :
  launches (t ++ t') = (launches t + launches t')%nat.
Proof.
  induction t as [|ev t IH]; [reflexivity|].
  destruct ev; simpl; rewrite IH; reflexivity.
Qed.

Lemma isWithinVoteWindow_spec (cfg : TimeBoxed.config) (h : Z) :
  TimeBoxed.isWithinVoteWindow cfg h = true
  <-> TimeBoxed.window_start cfg <= h < TimeBoxed.window_end cfg.
Proof. unfold TimeBoxed.isWithinVoteWindow. lia. Qed.

(** A round that starts outside the window only logs and sleeps. *)
Lemma outside_window_round (cfg : TimeBoxed.config) (env : session_env)
    (total : Z) (s : store) :
  TimeBoxed.isWithinVoteWindow cfg (hour env) = false ->
  TimeBoxed.main_round cfg env total s
  = (Ok total,
     mkStore (votes s) (statistics s)
       (trace s ++
          [ ELog MsgOutsideWindow;
            ESleep (inject_Z (randomInterval (window_draw env) 60000 120000)) ])).
Proof.
  intros Hout. unfold TimeBoxed.main_round. rewrite Hout. cbn [negb].
  unfold bind, log, sleep, emit, ret. cbn [votes statistics trace].
  flatten_trace. reflexivity.
Qed.



Lemma navigateWithRetry_yields (env : nav_env) (url : string) (timeout : Z) :
  yields (navigateWithRetry env url 3 timeout) (Ok (Some (nav_reaches env))) [].
Proof.
  intros s. rewrite navigateWithRetry_unfold. unfold nav_reaches, goto_ok.
  destruct (goto_answer env 0); [cbn; now rewrite app_nil_r|].
  destruct (goto_answer env 1); [cbn; now rewrite app_nil_r|].
  destruct (goto_answer env 2); cbn; now rewrite app_nil_r.
Qed.

(** [handleConsents] never throws and does not touch the ledger. *)
Lemma handleConsents_yields (env : consent_env) (sel : selectors) :
  yields (handleConsents env sel) (Ok tt) [].
Proof.
  intros s. unfold handleConsents, bind, try_catch, call, log, emit.
  destruct (consent_wait env) as [[]|], (consent_click env) as [[]|],
    (cookie_wait env) as [[]|], (cookie_click env) as [[]|];
    cbn; now rewrite app_nil_r.
Qed.

Lemma indexjs_batch_complete (envs : Z -> vote_env) (sel : selectors)
    (n minDelay maxDelay : Z) :
  (forall i, 0 <= i < n -> round_error (envs i) = None) ->
  yields (IndexJs.voteMultipleTimes envs sel n minDelay maxDelay) (Ok true)
    (batch_records
       (chosen_id IndexJs.voteForMain sel)
       envs 0 (Z.to_nat n)).
Proof.
  intros Hok. unfold IndexJs.voteMultipleTimes, vote_loop, for_loop.
  apply yields_try_ok.
  eapply yields_eq; [eapply yields_bind; [|apply yields_ret] | reflexivity |
                     apply app_nil_r].
  apply vote_rounds_complete. intros j Hj. apply Hok. lia.
Qed.

Lemma indexjs_batch_abort (envs : Z -> vote_env) (sel : selectors)
    (n minDelay maxDelay k : Z) (e : string) :
  0 <= k < n ->
  (forall i, 0 <= i < k -> round_error (envs i) = None) ->
  round_error (envs k) = Some e ->
  yields (IndexJs.voteMultipleTimes envs sel n minDelay maxDelay) (Throw e)
    (batch_records
       (chosen_id IndexJs.voteForMain sel)
       envs 0 (Z.to_nat k)).
Proof.
  intros Hk Hok Herr. unfold IndexJs.voteMultipleTimes, vote_loop, for_loop.
  eapply yields_eq;
    [eapply yields_try_catch;
       [apply yields_bind_throw
       |eapply yields_bind; [apply yields_log | apply yields_throw]]
    | reflexivity | apply app_nil_r].
  apply vote_rounds_abort.
  - lia.
  - intros j Hj. apply Hok. lia.
  - rewrite Z.add_0_l, Z2Nat.id by lia. exact Herr.
Qed.

Lemma timeboxed_batch_complete (cfg : TimeBoxed.config) (envs : Z -> vote_env)
    (sel : selectors) (n minDelay maxDelay : Z) :
  (forall i, 0 <= i < n -> round_error (envs i) = None) ->
  yields (TimeBoxed.voteMultipleTimes cfg envs sel n minDelay maxDelay) (Ok true)
    (batch_records
       (chosen_id (TimeBoxed.voteForMain cfg) sel)
       envs 0 (Z.to_nat n)).
Proof.
  intros Hok. unfold TimeBoxed.voteMultipleTimes, vote_loop, for_loop.
  eapply yields_eq; [eapply yields_bind; [|apply yields_ret] | reflexivity |
                     apply app_nil_r].
  apply vote_rounds_complete. intros j Hj. apply Hok. lia.
Qed.

Lemma timeboxed_batch_abort (cfg : TimeBoxed.config) (envs : Z -> vote_env)
    (sel : selectors) (n minDelay maxDelay k : Z) (e : string) :
  0 <= k < n ->
  (forall i, 0 <= i < k -> round_error (envs i) = None) ->
  round_error (envs k) = Some e ->
  yields (TimeBoxed.voteMultipleTimes cfg envs sel n minDelay maxDelay) (Throw e)
    (batch_records
       (chosen_id (TimeBoxed.voteForMain cfg) sel)
       envs 0 (Z.to_nat k)).
Proof.
  intros Hk Hok Herr. unfold TimeBoxed.voteMultipleTimes, vote_loop, for_loop.
  apply yields_bind_throw. apply vote_rounds_abort.
  - lia.
  - intros j Hj. apply Hok. lia.
  - rewrite Z.add_0_l, Z2Nat.id by lia. exact Herr.
Qed.

(** Steps through a sequence of calls that do not throw. *)
Ltac yields_step :=
  first
    [ apply yields_ret | apply yields_log | apply yields_sleep
    | apply yields_emit | apply yields_call
    | apply navigateWithRetry_yields | apply handleConsents_yields
    | eassumption ].

Ltac yields_seq :=
  repeat first
    [ yields_step
    | eapply yields_then; [solve [yields_step] | cbn beta iota] ].

(** The end of a session: closing the browser and the pause between
    sessions leave the total and the ledger as they are. *)
Lemma session_end_yields (t quota : Z) (pause : Q) :
  yields
    (log MsgClosing ;;; emit EClose ;;; log MsgClosed ;;;
     (if t <? quota then log (MsgWaiting (pause / 1000)%Q) ;;; sleep pause
      else ret tt) ;;;
     ret t)
    (Ok t) [].
Proof.
  destruct (t <? quota); yields_seq.
Qed.

(** A round of the outer loop of index.js, by what its batch yields. *)
Lemma indexjs_round_after_batch (cfg : IndexJs.config) (env : session_env)
    (total : Z) (res : result bool) (app : list vote) :
  launch_answer env = Ok tt -> nav_reaches (nav env) = true ->
  top20_answer env = Ok tt ->
  yields (IndexJs.voteMultipleTimes (vote_envs env) (IndexJs.cfg_selectors cfg)
            (randomInterval (batch_draw env) 1 5) 3000 7000) res app ->
  yields (IndexJs.main_round cfg env total)
    (Ok (match res with
         | Ok true => total + randomInterval (batch_draw env) 1 5
         | _ => total
         end))
    app.
Proof.
  intros Hlaunch Hnav Htop Hbatch. unfold IndexJs.main_round.
  rewrite Hlaunch, Htop.
  do 3 (eapply yields_then; [solve [yields_step] | cbn beta]).
  rewrite Hnav. cbn [truthy negb].
  eapply yields_eq; [eapply yields_bind; [|apply session_end_yields]
                    | reflexivity | apply app_nil_r].
  destruct res as [[|]|e].
  - apply yields_try_ok.
    do 5 (eapply yields_then; [solve [yields_step] | cbn beta]).
    eapply yields_eq; [eapply yields_bind; [eassumption|] | reflexivity
                      | apply app_nil_r].
    cbn iota. yields_seq.
  - apply yields_try_ok.
    do 5 (eapply yields_then; [solve [yields_step] | cbn beta]).
    eapply yields_eq; [eapply yields_bind; [eassumption|] | reflexivity
                      | apply app_nil_r].
    cbn iota. yields_seq.
  - eapply yields_eq; [eapply yields_try_catch | reflexivity | apply app_nil_r].
    + do 5 (eapply yields_then; [solve [yields_step] | cbn beta]).
      apply yields_bind_throw. eassumption.
    + yields_seq.
Qed.

Lemma indexjs_round_no_navigation (cfg : IndexJs.config) (env : session_env)
    (total : Z) :
  launch_answer env = Ok tt -> nav_reaches (nav env) = false ->
  yields (IndexJs.main_round cfg env total) (Ok total) [].
Proof.
  intros Hlaunch Hnav. unfold IndexJs.main_round. rewrite Hlaunch.
  do 3 (eapply yields_then; [solve [yields_step] | cbn beta]).
  rewrite Hnav. cbn [truthy negb]. yields_seq.
Qed.

Lemma indexjs_round_no_list (cfg : IndexJs.config) (env : session_env)
    (total : Z) (e : string) :
  launch_answer env = Ok tt -> nav_reaches (nav env) = true ->
  top20_answer env = Throw e ->
  yields (IndexJs.main_round cfg env total) (Ok total) [].
Proof.
  intros Hlaunch Hnav Htop. unfold IndexJs.main_round. rewrite Hlaunch, Htop.
  do 3 (eapply yields_then; [solve [yields_step] | cbn beta]).
  rewrite Hnav. cbn [truthy negb].
  eapply yields_then; [|apply session_end_yields].
  eapply (yields_try_catch _ _ e [] (Ok total) []).
  - do 3 (eapply yields_then; [solve [yields_step] | cbn beta]).
    apply yields_bind_throw. apply yields_call.
  - yields_seq.
Qed.

(** The same three facts for the time-boxed variant, inside the window. *)
Lemma timeboxed_round_after_batch (cfg : TimeBoxed.config) (env : session_env)
    (total : Z) (res : result bool) (app : list vote) :
  TimeBoxed.isWithinVoteWindow cfg (hour env) = true ->
  launch_answer env = Ok tt -> nav_reaches (nav env) = true ->
  top20_answer env = Ok tt ->
  yields (TimeBoxed.voteMultipleTimes cfg (vote_envs env)
            (TimeBoxed.cfg_selectors cfg) 5 3000 7000) res app ->
  yields (TimeBoxed.main_round cfg env total)
    (Ok (match res with
         | Ok true => total + 5
         | _ => total
         end))
    app.
Proof.
  intros Hwin Hlaunch Hnav Htop Hbatch. unfold TimeBoxed.main_round.
  rewrite Hwin, Hlaunch, Htop. cbn [negb].
  do 3 (eapply yields_then; [solve [yields_step] | cbn beta]).
  rewrite Hnav. cbn [truthy negb].
  eapply yields_eq; [eapply yields_bind; [|apply session_end_yields]
                    | reflexivity | apply app_nil_r].
  destruct res as [[|]|e].
  - apply yields_try_ok.
    do 5 (eapply yields_then; [solve [yields_step] | cbn beta]).
    eapply yields_eq; [eapply yields_bind; [eassumption|] | reflexivity
                      | apply app_nil_r].
    cbn iota. yields_seq.
  - apply yields_try_ok.
    do 5 (eapply yields_then; [solve [yields_step] | cbn beta]).
    eapply yields_eq; [eapply yields_bind; [eassumption|] | reflexivity
                      | apply app_nil_r].
    cbn iota. yields_seq.
  - eapply yields_eq; [eapply yields_try_catch | reflexivity | apply app_nil_r].
    + do 5 (eapply yields_then; [solve [yields_step] | cbn beta]).
      apply yields_bind_throw. eassumption.
    + yields_seq.
Qed.

Lemma timeboxed_round_no_navigation (cfg : TimeBoxed.config) (env : session_env)
    (total : Z) :
  TimeBoxed.isWithinVoteWindow cfg (hour env) = true ->
  launch_answer env = Ok tt -> nav_reaches (nav env) = false ->
  yields (TimeBoxed.main_round cfg env total) (Ok total) [].
Proof.
  intros Hwin Hlaunch Hnav. unfold TimeBoxed.main_round.
  rewrite Hwin, Hlaunch. cbn [negb].
  do 3 (eapply yields_then; [solve [yields_step] | cbn beta]).
  rewrite Hnav. cbn [truthy negb]. yields_seq.
Qed.

Lemma timeboxed_round_no_list (cfg : TimeBoxed.config) (env : session_env)
    (total : Z) (e : string) :
  TimeBoxed.isWithinVoteWindow cfg (hour env) = true ->
  launch_answer env = Ok tt -> nav_reaches (nav env) = true ->
  top20_answer env = Throw e ->
  yields (TimeBoxed.main_round cfg env total) (Ok total) [].
Proof.
  intros Hwin Hlaunch Hnav Htop. unfold TimeBoxed.main_round.
  rewrite Hwin, Hlaunch, Htop. cbn [negb].
  do 3 (eapply yields_then; [solve [yields_step] | cbn beta]).
  rewrite Hnav. cbn [truthy negb].
  eapply yields_then; [|apply session_end_yields].
  eapply (yields_try_catch _ _ e [] (Ok total) []).
  - do 3 (eapply yields_then; [solve [yields_step] | cbn beta]).
    apply yields_bind_throw. apply yields_call.
  - yields_seq.
Qed.

(** C7. In a round of the outer loop (of either variant) the running total
    grows by the batch size when the batch returns; it is left as it was
    when navigation gives up or when an exception ends the batch, although
    the records the batch had added before the exception stay in the
    ledger. *)
Theorem quota_counts_whole_batches_only :
  (forall (cfg : IndexJs.config) (env : session_env),
      launch_answer env = Ok tt ->
      credits_whole_batches (IndexJs.main_round cfg env) env
        (randomInterval (batch_draw env) 1 5)
        (chosen_id IndexJs.voteForMain (IndexJs.cfg_selectors cfg)))
  /\ (forall (cfg : TimeBoxed.config) (env : session_env),
        TimeBoxed.isWithinVoteWindow cfg (hour env) = true ->
        launch_answer env = Ok tt ->
        credits_whole_batches (TimeBoxed.main_round cfg env) env 5
          (chosen_id (TimeBoxed.voteForMain cfg) (TimeBoxed.cfg_selectors cfg))).
Proof.
  split.
  - intros cfg env Hlaunch total s r. unfold r. clear r.
    split; [|split; [|split]].
    + intros Hnav Htop Hok.
      exact (indexjs_round_after_batch cfg env total (Ok true) _ Hlaunch Hnav Htop
               (indexjs_batch_complete _ _ _ _ _ Hok) s).
    + intros k e Hnav Htop Hk Hok Herr.
      exact (indexjs_round_after_batch cfg env total (Throw e) _ Hlaunch Hnav Htop
               (indexjs_batch_abort _ _ _ _ _ k e Hk Hok Herr) s).
    + intros Hnav.
      destruct (indexjs_round_no_navigation cfg env total Hlaunch Hnav s)
        as [Hr Hv].
      rewrite app_nil_r in Hv. split; assumption.
    + intros e Hnav Htop.
      destruct (indexjs_round_no_list cfg env total e Hlaunch Hnav Htop s)
        as [Hr Hv].
      rewrite app_nil_r in Hv. split; assumption.
  - intros cfg env Hwin Hlaunch total s r. unfold r. clear r.
    split; [|split; [|split]].
    + intros Hnav Htop Hok.
      exact (timeboxed_round_after_batch cfg env total (Ok true) _ Hwin Hlaunch
               Hnav Htop (timeboxed_batch_complete cfg _ _ _ _ _ Hok) s).
    + intros k e Hnav Htop Hk Hok Herr.
      exact (timeboxed_round_after_batch cfg env total (Throw e) _ Hwin Hlaunch
               Hnav Htop (timeboxed_batch_abort cfg _ _ _ _ _ k e Hk Hok Herr) s).
    + intros Hnav.
      destruct (timeboxed_round_no_navigation cfg env total Hwin Hlaunch Hnav s)
        as [Hr Hv].
      rewrite app_nil_r in Hv. split; assumption.
    + intros e Hnav Htop.
      destruct (timeboxed_round_no_list cfg env total e Hwin Hlaunch Hnav Htop s)
        as [Hr Hv].
      rewrite app_nil_r in Hv. split; assumption.
Qed.


Lemma quota_counts_whole_batches_only_witness :
  launch_answer (broken_session 10) = Ok tt
  /\ nav_reaches (nav (broken_session 10)) = true
  /\ top20_answer (broken_session 10) = Ok tt
  /\ 0 <= 2 < randomInterval (batch_draw (broken_session 10)) 1 5
  /\ (forall i, 0 <= i < 2 -> round_error (vote_envs (broken_session 10) i) = None)
  /\ round_error (vote_envs (broken_session 10) 2)
     = Some "failed to find element matching selector"
  /\ fst (IndexJs.main_round example_config (broken_session 10) 7 initial_store)
     = Ok 7
  /\ votes (snd (IndexJs.main_round example_config (broken_session 10) 7
                   initial_store))
     = [ mkVote (Some "main") "2024-09-01T10:00:00.000Z";
         mkVote (Some "main") "2024-09-01T10:00:00.000Z" ].
Proof.
  assert (Hl : launch_answer (broken_session 10) = Ok tt) by reflexivity.
  assert (Hn : nav_reaches (nav (broken_session 10)) = true) by reflexivity.
  assert (Ht : top20_answer (broken_session 10) = Ok tt) by reflexivity.
  assert (Hk : 0 <= 2 < randomInterval (batch_draw (broken_session 10)) 1 5)
    by (vm_compute; split; [discriminate | reflexivity]).
  assert (Hok : forall i, 0 <= i < 2 ->
                  round_error (vote_envs (broken_session 10) i) = None).
  { intros i Hi. assert (Hc : i = 0 \/ i = 1) by lia.
    destruct Hc as [-> | ->]; reflexivity. }
  assert (He : round_error (vote_envs (broken_session 10) 2)
               = Some "failed to find element matching selector") by reflexivity.
  destruct (proj1 (proj2 (proj1 quota_counts_whole_batches_only example_config
                            (broken_session 10) Hl 7 initial_store))
              2 _ Hn Ht Hk Hok He) as [Hr Hv].
  repeat (split; [assumption|]). exact Hv.
Defined.

(** ** Complete runs *)

(** A run of index.js with a quota of three: one session, a batch of three
    confirmed votes, and the ledger saved at the end. *)
Example indexjs_run_to_completion :
  let cfg := IndexJs.mkConfig 60 3 "https://example.org/top20" example_selectors
               "/app" in
  let out := IndexJs.main 4 cfg (fun _ => example_session 10)
               "2024-09-01T11:00:00.000Z" initial_store in
  fst out = Ok (Some tt)
  /\ launches (trace (snd out)) = 1%nat
  /\ written (trace (snd out))
     = [ mkDoc (votes (snd out)) (mkStats 3 {[ "main" := JNum 3 ]}) ]
  /\ length (votes (snd out)) = 3%nat.
Proof. vm_compute. repeat split; reflexivity. Qed.

(** The fuel only bounds the number of rounds: once the quota is reached,
    more fuel changes nothing. *)
Lemma indexjs_main_loop_done (fuel : nat) (cfg : IndexJs.config)
    (envs : nat -> session_env) (k : nat) (total : Z) (s : store) :
  IndexJs.maxVotes cfg <= total ->
  IndexJs.main_loop fuel cfg envs k total s = (Ok (Some total), s).
Proof.
  intros Hq. assert (E : (total <? IndexJs.maxVotes cfg) = false)
    by now apply Z.ltb_ge.
  destruct fuel; cbn [IndexJs.main_loop]; rewrite E; reflexivity.
Qed.

(** * Further properties of the code *)

(** ** Computations that stay quiet *)

Lemma quiet_refl (s : store) : quiet s s.
Proof.
  repeat split; try reflexivity. exists []. now rewrite app_nil_r.
Qed.

Lemma quiet_trans (s1 s2 s3 : store) : quiet s1 s2 -> quiet s2 s3 -> quiet s1 s3.
Proof.
  intros ((l1 & V1) & S1 & W1 & L1 & C1) ((l2 & V2) & S2 & W2 & L2 & C2).
  repeat split; try congruence.
  exists (l1 ++ l2). now rewrite V2, V1, app_assoc.
Qed.

Lemma closes_app (t t' : list event) :
  closes (t ++ t') = (closes t + closes t')%nat.
Proof.
  induction t as [|ev t IH]; [reflexivity|].
  destruct ev; simpl; rewrite IH; reflexivity.
Qed.


Lemma quiet_snoc (s : store) (ev : event) :
  quiet_event ev = true ->
  quiet s (mkStore (votes s) (statistics s) (trace s ++ [ev])).
Proof.
  intros Hq. unfold quiet. cbn [votes statistics trace].
  rewrite written_app, launches_app, closes_app.
  repeat split.
  - exists []. now rewrite app_nil_r.
  - destruct ev; try discriminate Hq; simpl; now rewrite app_nil_r.
  - destruct ev; try discriminate Hq; simpl; lia.
  - destruct ev; try discriminate Hq; simpl; lia.
Qed.

Lemma keeps_quiet_ret {A} (a : A) : keeps_quiet (ret a).
Proof. intros s. apply quiet_refl. Qed.

Lemma keeps_quiet_throw {A} (e : string) : keeps_quiet (@throw A e).
Proof. intros s. apply quiet_refl. Qed.

Lemma keeps_quiet_emit (ev : event) :
  quiet_event ev = true -> keeps_quiet (emit ev).
Proof. intros Hq s. now apply quiet_snoc. Qed.

Lemma keeps_quiet_log (m : message) : keeps_quiet (log m).
Proof. now apply keeps_quiet_emit. Qed.

Lemma keeps_quiet_sleep (ms : Q) : keeps_quiet (sleep ms).
Proof. now apply keeps_quiet_emit. Qed.

Lemma keeps_quiet_call {A} (ev : event) (answer : result A) :
  quiet_event ev = true -> keeps_quiet (call ev answer).
Proof. intros Hq s. now apply quiet_snoc. Qed.

Lemma keeps_quiet_push (v : vote) : keeps_quiet (push_vote v).
Proof.
  intros s. unfold quiet. cbn. repeat split; try reflexivity. now exists [v].
Qed.

Lemma keeps_quiet_bind {A B} (m : M A) (k : A -> M B) :
  keeps_quiet m -> (forall a, keeps_quiet (k a)) -> keeps_quiet (bind m k).
Proof.
  intros Hm Hk s. unfold bind. specialize (Hm s).
  destruct (m s) as [[a|e] s1]; cbn [snd] in Hm |- *; [|exact Hm].
  eapply quiet_trans; [exact Hm | apply Hk].
Qed.

Lemma keeps_quiet_try {A} (m : M A) (h : string -> M A) :
  keeps_quiet m -> (forall e, keeps_quiet (h e)) -> keeps_quiet (try_catch m h).
Proof.
  intros Hm Hh s. unfold try_catch. specialize (Hm s).
  destruct (m s) as [[a|e] s1]; cbn [snd] in Hm |- *; [exact Hm|].
  eapply quiet_trans; [exact Hm | apply Hh].
Qed.

Lemma keeps_quiet_for {R} (body : Z -> M (ctl R)) (rounds : nat) :
  (forall i, keeps_quiet (body i)) -> forall i, keeps_quiet (for_from rounds i body).
Proof.
  intros Hb. induction rounds as [|n IH]; intros i.
  - apply keeps_quiet_ret.
  - cbn [for_from]. apply keeps_quiet_bind; [apply Hb|].
    intros [|v]; [apply IH | apply keeps_quiet_ret].
Qed.

Lemma keeps_quiet_if {A} (b : bool) (m1 m2 : M A) :
  keeps_quiet m1 -> keeps_quiet m2 -> keeps_quiet (if b then m1 else m2).
Proof. now destruct b. Qed.

Create HintDb quiet.
#[local] Hint Resolve keeps_quiet_ret keeps_quiet_throw keeps_quiet_log
  keeps_quiet_sleep keeps_quiet_push keeps_quiet_bind keeps_quiet_try
  keeps_quiet_for keeps_quiet_if : quiet.
#[local] Hint Extern 1 (keeps_quiet (call _ _)) =>
  apply keeps_quiet_call; reflexivity : quiet.
#[local] Hint Extern 1 (keeps_quiet (emit _)) =>
  apply keeps_quiet_emit; reflexivity : quiet.
#[local] Hint Extern 2 (keeps_quiet (match ?x with _ => _ end)) =>
  destruct x : quiet.

Lemma navigateWithRetry_quiet (env : nav_env) (url : string) (retries timeout : Z) :
  keeps_quiet (navigateWithRetry env url retries timeout).
Proof. unfold navigateWithRetry, for_loop. auto 12 with quiet. Qed.

Lemma handleConsents_quiet (env : consent_env) (sel : selectors) :
  keeps_quiet (handleConsents env sel).
Proof. unfold handleConsents. auto 12 with quiet. Qed.

Lemma vote_round_quiet (voteForMain : Q -> bool) (sel : selectors)
    (minDelay maxDelay : Z) (env : vote_env) (i : Z) :
  keeps_quiet (vote_round voteForMain sel minDelay maxDelay env i).
Proof. unfold vote_round. auto 20 with quiet. Qed.

Lemma vote_loop_quiet (voteForMain : Q -> bool) (sel : selectors)
    (minDelay maxDelay : Z) (envs : Z -> vote_env) (times : Z) :
  keeps_quiet (vote_loop voteForMain sel minDelay maxDelay envs times).
Proof.
  unfold vote_loop, for_loop. apply keeps_quiet_bind; [|auto with quiet].
  apply keeps_quiet_for. intros i. apply vote_round_quiet.
Qed.

(** ** Computations that do not throw, and what they return *)

Lemma never_throws_ret {A} (a : A) : never_throws (ret a).
Proof. intros s. now exists a. Qed.

Lemma never_throws_emit (ev : event) : never_throws (emit ev).
Proof. intros s. now exists tt. Qed.

Lemma never_throws_log (m : message) : never_throws (log m).
Proof. apply never_throws_emit. Qed.

Lemma never_throws_sleep (ms : Q) : never_throws (sleep ms).
Proof. apply never_throws_emit. Qed.

Lemma never_throws_bind {A B} (m : M A) (k : A -> M B) :
  never_throws m -> (forall a, never_throws (k a)) -> never_throws (bind m k).
Proof.
  intros Hm Hk s. unfold bind. destruct (Hm s) as [a Ha].
  destruct (m s) as [r s1]. cbn in Ha. subst r. apply Hk.
Qed.

(** A [try] whose [catch] does not throw does not throw. *)
Lemma never_throws_try {A} (m : M A) (h : string -> M A) :
  (forall e, never_throws (h e)) -> never_throws (try_catch m h).
Proof.
  intros Hh s. unfold try_catch.
  destruct (m s) as [[a|e] s1]; [now exists a | apply Hh].
Qed.

Lemma never_throws_for {R} (body : Z -> M (ctl R)) (rounds : nat) :
  (forall i, never_throws (body i)) ->
  forall i, never_throws (for_from rounds i body).
Proof.
  intros Hb. induction rounds as [|n IH]; intros i.
  - apply never_throws_ret.
  - cbn [for_from]. apply never_throws_bind; [apply Hb|].
    intros [|v]; [apply IH | apply never_throws_ret].
Qed.

Lemma never_throws_if {A} (b : bool) (m1 m2 : M A) :
  never_throws m1 -> never_throws m2 -> never_throws (if b then m1 else m2).
Proof. now destruct b. Qed.

Create HintDb nothrow.
#[local] Hint Resolve never_throws_ret never_throws_log never_throws_sleep
  never_throws_emit never_throws_bind never_throws_try never_throws_for
  never_throws_if : nothrow.

Lemma navigateWithRetry_never_throws (env : nav_env) (url : string)
    (retries timeout : Z) :
  never_throws (navigateWithRetry env url retries timeout).
Proof. unfold navigateWithRetry, for_loop. auto 12 with nothrow. Qed.

Lemma returns_ret {A} (a : A) (P : A -> Prop) : P a -> returns (ret a) P.
Proof. intros Hp s a' [= <-]. exact Hp. Qed.

Lemma returns_bind {A B} (m : M A) (k : A -> M B) (Q : A -> Prop) (P : B -> Prop) :
  returns m Q -> (forall a, Q a -> returns (k a) P) -> returns (bind m k) P.
Proof.
  intros Hm Hk s b. unfold bind. specialize (Hm s).
  destruct (m s) as [[a|e] s1]; cbn [fst] in Hm |- *; [|discriminate].
  apply Hk. now apply Hm.
Qed.

Lemma returns_then {A B} (m : M A) (k : A -> M B) (P : B -> Prop) :
  (forall a, returns (k a) P) -> returns (bind m k) P.
Proof.
  intros Hk. apply (returns_bind m k (fun _ => True)); [easy|].
  intros a _. apply Hk.
Qed.

Lemma returns_try {A} (m : M A) (h : string -> M A) (P : A -> Prop) :
  returns m P -> (forall e, returns (h e) P) -> returns (try_catch m h) P.
Proof.
  intros Hm Hh s a. unfold try_catch. specialize (Hm s).
  destruct (m s) as [[a'|e] s1]; cbn [fst] in Hm |- *; [apply Hm | apply Hh].
Qed.

Lemma returns_if {A} (b : bool) (m1 m2 : M A) (P : A -> Prop) :
  returns m1 P -> returns m2 P -> returns (if b then m1 else m2) P.
Proof. now destruct b. Qed.

(** ** Opening and closing browsers *)

Lemma session_delta_trans a b c d (s1 s2 s3 : store) :
  session_delta a b s1 s2 -> session_delta c d s2 s3 ->
  session_delta (a + c) (b + d) s1 s3.
Proof.
  intros ((l1 & V1) & S1 & W1 & L1 & C1) ((l2 & V2) & S2 & W2 & L2 & C2).
  repeat split; try congruence; try lia.
  exists (l1 ++ l2). now rewrite V2, V1, app_assoc.
Qed.

Lemma quiet_delta (s s' : store) : quiet s s' <-> session_delta 0 0 s s'.
Proof.
  unfold quiet, session_delta. rewrite !Nat.add_0_r. reflexivity.
Qed.

Lemma changes_quiet {A} (m : M A) :
  keeps_quiet m -> never_throws m -> changes m 0 0.
Proof. intros Hq Hn. split; [exact Hn|]. intros s. apply quiet_delta, Hq. Qed.

Lemma changes_bind {A B} (m : M A) (k : A -> M B) a b c d :
  changes m a b -> (forall x, changes (k x) c d) ->
  changes (bind m k) (a + c) (b + d).
Proof.
  intros [Hn Hd] Hk. split.
  - apply never_throws_bind; [exact Hn | intros x; apply Hk].
  - intros s. unfold bind. destruct (Hn s) as [x Hx]. specialize (Hd s).
    destruct (m s) as [r s1]. cbn in Hx, Hd. subst r.
    eapply session_delta_trans; [exact Hd | apply Hk].
Qed.

(** After a quiet step that does not throw. *)
Lemma changes_then {A B} (m : M A) (k : A -> M B) c d :
  keeps_quiet m -> never_throws m -> (forall x, changes (k x) c d) ->
  changes (bind m k) c d.
Proof.
  intros Hq Hn Hk.
  exact (changes_bind m k 0 0 c d (changes_quiet m Hq Hn) Hk).
Qed.

Lemma changes_launch {B} (k : unit -> M B) c d :
  changes (k tt) c d -> changes (bind (call ELaunch (Ok tt)) k) (S c) d.
Proof.
  intros Hk. apply (changes_bind (call ELaunch (Ok tt)) k 1 0 c d).
  - split; [intros s; now exists tt|]. intros s. unfold session_delta. cbn.
    rewrite written_app, launches_app, closes_app. cbn.
    rewrite app_nil_r, Nat.add_0_r. repeat split; try reflexivity.
    exists []. now rewrite app_nil_r.
  - intros []. exact Hk.
Qed.

Lemma changes_close {B} (k : unit -> M B) c d :
  changes (k tt) c d -> changes (bind (emit EClose) k) c (S d).
Proof.
  intros Hk. apply (changes_bind (emit EClose) k 0 1 c d).
  - split; [apply never_throws_emit|]. intros s. unfold session_delta. cbn.
    rewrite written_app, launches_app, closes_app. cbn.
    rewrite app_nil_r, Nat.add_0_r. repeat split; try reflexivity.
    exists []. now rewrite app_nil_r.
  - intros []. exact Hk.
Qed.

Lemma changes_if {A} (b : bool) (m1 m2 : M A) c d :
  changes m1 c d -> changes m2 c d -> changes (if b then m1 else m2) c d.
Proof. now destruct b. Qed.

(** The end of a session opens nothing and closes one browser. *)
Lemma session_end_changes (t quota : Z) (pause : Q) :
  changes
    (log MsgClosing ;;; emit EClose ;;; log MsgClosed ;;;
     (if t <? quota then log (MsgWaiting (pause / 1000)%Q) ;;; sleep pause
      else ret tt) ;;;
     ret t)
    0 1.
Proof.
  apply changes_then; [auto with quiet | auto with nothrow|]. intros _.
  apply changes_close. apply changes_quiet.
  - auto 8 with quiet.
  - auto 8 with nothrow.
Qed.

Lemma indexjs_voteMultipleTimes_quiet (envs : Z -> vote_env) (sel : selectors)
    (times minDelay maxDelay : Z) :
  keeps_quiet (IndexJs.voteMultipleTimes envs sel times minDelay maxDelay).
Proof.
  unfold IndexJs.voteMultipleTimes. apply keeps_quiet_try.
  - apply vote_loop_quiet.
  - auto with quiet.
Qed.

(** A session of index.js whose browser came up: one browser opened, one
    closed, no exception. *)
Lemma indexjs_round_changes (cfg : IndexJs.config) (env : session_env)
    (total : Z) :
  launch_answer env = Ok tt -> changes (IndexJs.main_round cfg env total) 1 1.
Proof.
  intros Hl. unfold IndexJs.main_round. rewrite Hl.
  apply changes_then; [auto with quiet | auto with nothrow|]. intros _.
  apply changes_launch.
  apply changes_then;
    [apply navigateWithRetry_quiet | apply navigateWithRetry_never_throws|].
  intros nav_result. apply changes_if.
  - apply changes_then; [auto with quiet | auto with nothrow|]. intros _.
    apply changes_close. apply changes_quiet; [auto with quiet | auto with nothrow].
  - apply changes_then.
    + apply keeps_quiet_try; [|auto with quiet].
      apply keeps_quiet_bind; [apply handleConsents_quiet|]. intros _.
      do 4 (apply keeps_quiet_bind; [auto with quiet|]; intros _).
      apply keeps_quiet_bind; [apply indexjs_voteMultipleTimes_quiet|].
      intros b. auto with quiet.
    + auto with nothrow.
    + intros t. apply session_end_changes.
Qed.

Lemma timeboxed_round_changes (cfg : TimeBoxed.config) (env : session_env)
    (total : Z) :
  TimeBoxed.isWithinVoteWindow cfg (hour env) = true ->
  launch_answer env = Ok tt -> changes (TimeBoxed.main_round cfg env total) 1 1.
Proof.
  intros Hw Hl. unfold TimeBoxed.main_round. rewrite Hw, Hl. cbn [negb].
  apply changes_then; [auto with quiet | auto with nothrow|]. intros _.
  apply changes_launch.
  apply changes_then;
    [apply navigateWithRetry_quiet | apply navigateWithRetry_never_throws|].
  intros nav_result. apply changes_if.
  - apply changes_then; [auto with quiet | auto with nothrow|]. intros _.
    apply changes_close. apply changes_quiet; [auto with quiet | auto with nothrow].
  - apply changes_then.
    + apply keeps_quiet_try; [|auto with quiet].
      apply keeps_quiet_bind; [apply handleConsents_quiet|]. intros _.
      do 4 (apply keeps_quiet_bind; [auto with quiet|]; intros _).
      apply keeps_quiet_bind; [apply vote_loop_quiet|].
      intros b. auto with quiet.
    + auto with nothrow.
    + intros t. apply session_end_changes.
Qed.

(** ** The outer loop as a whole *)

Lemma calm_refl (s : store) : calm s s.
Proof. repeat split; try reflexivity. exists []. now rewrite app_nil_r. Qed.

Lemma calm_trans (s1 s2 s3 : store) : calm s1 s2 -> calm s2 s3 -> calm s1 s3.
Proof.
  intros ((l1 & V1) & S1 & W1) ((l2 & V2) & S2 & W2).
  repeat split; try congruence.
  exists (l1 ++ l2). now rewrite V2, V1, app_assoc.
Qed.

Lemma session_delta_calm a b (s s' : store) : session_delta a b s s' -> calm s s'.
Proof. intros (V & S & W & _). now repeat split. Qed.

(** A launch that throws is not caught by the round. *)
Lemma indexjs_round_launch_throws (cfg : IndexJs.config) (env : session_env)
    (total : Z) (e : string) (s : store) :
  launch_answer env = Throw e ->
  IndexJs.main_round cfg env total s
  = (Throw e, mkStore (votes s) (statistics s)
                (trace s ++ [ELog MsgNewSession; ELaunch])).
Proof.
  intros Hl. unfold IndexJs.main_round, bind, log, emit, call. rewrite Hl.
  cbn. flatten_trace. reflexivity.
Qed.

Lemma timeboxed_round_launch_throws (cfg : TimeBoxed.config) (env : session_env)
    (total : Z) (e : string) (s : store) :
  TimeBoxed.isWithinVoteWindow cfg (hour env) = true ->
  launch_answer env = Throw e ->
  TimeBoxed.main_round cfg env total s
  = (Throw e, mkStore (votes s) (statistics s)
                (trace s ++ [ELog MsgNewSession; ELaunch])).
Proof.
  intros Hw Hl. unfold TimeBoxed.main_round, bind, log, emit, call.
  rewrite Hw, Hl. cbn. flatten_trace. reflexivity.
Qed.

Lemma calm_logged (s : store) (t : list event) :
  written t = [] -> calm s (mkStore (votes s) (statistics s) (trace s ++ t)).
Proof.
  intros Ht. unfold calm. cbn. rewrite written_app, Ht, app_nil_r.
  repeat split. exists []. now rewrite app_nil_r.
Qed.

Lemma indexjs_round_calm (cfg : IndexJs.config) (env : session_env) (total : Z)
    (s : store) :
  calm s (snd (IndexJs.main_round cfg env total s)).
Proof.
  destruct (launch_answer env) as [[]|e] eqn:Hl.
  - eapply session_delta_calm. now apply indexjs_round_changes.
  - rewrite (indexjs_round_launch_throws cfg env total e s Hl).
    now apply calm_logged.
Qed.

Lemma timeboxed_round_calm (cfg : TimeBoxed.config) (env : session_env)
    (total : Z) (s : store) :
  calm s (snd (TimeBoxed.main_round cfg env total s)).
Proof.
  destruct (TimeBoxed.isWithinVoteWindow cfg (hour env)) eqn:Hw.
  - destruct (launch_answer env) as [[]|e] eqn:Hl.
    + eapply session_delta_calm. now apply timeboxed_round_changes.
    + rewrite (timeboxed_round_launch_throws cfg env total e s Hw Hl).
      now apply calm_logged.
  - rewrite (outside_window_round cfg env total s Hw). now apply calm_logged.
Qed.

Lemma indexjs_loop_calm (fuel : nat) (cfg : IndexJs.config)
    (envs : nat -> session_env) : forall (k : nat) (total : Z) (s : store),
  calm s (snd (IndexJs.main_loop fuel cfg envs k total s)).
Proof.
  induction fuel as [|n IH]; intros k total s; cbn [IndexJs.main_loop].
  - apply calm_refl.
  - destruct (total <? IndexJs.maxVotes cfg); [|apply calm_refl].
    unfold bind. pose proof (indexjs_round_calm cfg (envs k) total s) as Hr.
    destruct (IndexJs.main_round cfg (envs k) total s) as [[t|e] s1];
      cbn [snd] in Hr |- *; [|exact Hr].
    eapply calm_trans; [exact Hr | apply IH].
Qed.

Lemma timeboxed_loop_calm (fuel : nat) (cfg : TimeBoxed.config)
    (envs : nat -> session_env) : forall (k : nat) (total : Z) (s : store),
  calm s (snd (TimeBoxed.main_loop fuel cfg envs k total s)).
Proof.
  induction fuel as [|n IH]; intros k total s; cbn [TimeBoxed.main_loop].
  - apply calm_refl.
  - destruct (total <? TimeBoxed.maxVotes cfg); [|apply calm_refl].
    unfold bind. pose proof (timeboxed_round_calm cfg (envs k) total s) as Hr.
    destruct (TimeBoxed.main_round cfg (envs k) total s) as [[t|e] s1];
      cbn [snd] in Hr |- *; [|exact Hr].
    eapply calm_trans; [exact Hr | apply IH].
Qed.

(** X1. Whatever the page, the proxy and the clock answer, and for any
    number of rounds, the outer loop of either variant only appends to the
    ledger: records already there are never changed or dropped, the summary
    is not touched and no file is written while the loop runs. *)
Theorem outer_loop_only_appends :
  (forall fuel (cfg : IndexJs.config) envs k total s,
      let s' := snd (IndexJs.main_loop fuel cfg envs k total s) in
      (exists added, votes s' = votes s ++ added)
      /\ statistics s' = statistics s
      /\ written (trace s') = written (trace s))
  /\ (forall fuel (cfg : TimeBoxed.config) envs k total s,
        let s' := snd (TimeBoxed.main_loop fuel cfg envs k total s) in
        (exists added, votes s' = votes s ++ added)
        /\ statistics s' = statistics s
        /\ written (trace s') = written (trace s)).
Proof.
  split.
  - intros fuel cfg envs k total s. apply indexjs_loop_calm.
  - intros fuel cfg envs k total s. apply timeboxed_loop_calm.
Qed.

(** What [main] does once the loop is over. *)
Lemma indexjs_main_run (fuel : nat) (cfg : IndexJs.config)
    (envs : nat -> session_env) (iso : string) (s : store) :
  IndexJs.main fuel cfg envs iso s
  = match IndexJs.main_loop fuel cfg envs 0%nat 0 s with
    | (Ok (Some t), s1) =>
        (Ok (Some tt),
         mkStore (votes s1) (Some (summary_of (votes s1)))
           (trace s1 ++
              [ ELog (MsgCompleted t);
                EWrite (IndexJs.logFilePath cfg iso)
                  (mkDoc (votes s1) (summary_of (votes s1)));
                ELog (MsgSaved (IndexJs.logFilePath cfg iso)) ]))
    | (Ok None, s1) => (Ok None, s1)
    | (Throw e, s1) => (Throw e, s1)
    end.
Proof.
  unfold IndexJs.main. unfold bind at 1.
  destruct (IndexJs.main_loop fuel cfg envs 0%nat 0 s) as [[[t|]|e] s1];
    try reflexivity.
  unfold bind, log, emit, ret. rewrite saveVoteLog_run. cbn.
  flatten_trace. reflexivity.
Qed.

Lemma timeboxed_main_run (fuel : nat) (cfg : TimeBoxed.config)
    (envs : nat -> session_env) (iso : string) (s : store) :
  TimeBoxed.main fuel cfg envs iso s
  = match TimeBoxed.main_loop fuel cfg envs 0%nat 0 s with
    | (Ok (Some t), s1) =>
        (Ok (Some tt),
         mkStore (votes s1) (Some (summary_of (votes s1)))
           (trace s1 ++
              [ ELog (MsgCompleted t);
                EWrite (TimeBoxed.logFilePath cfg iso)
                  (mkDoc (votes s1) (summary_of (votes s1)));
                ELog (MsgSaved (TimeBoxed.logFilePath cfg iso)) ]))
    | (Ok None, s1) => (Ok None, s1)
    | (Throw e, s1) => (Throw e, s1)
    end.
Proof.
  unfold TimeBoxed.main. unfold bind at 1.
  destruct (TimeBoxed.main_loop fuel cfg envs 0%nat 0 s) as [[[t|]|e] s1];
    try reflexivity.
  unfold bind, log, emit, ret. rewrite saveVoteLog_run. cbn.
  flatten_trace. reflexivity.
Qed.

(** X2. A run of [main] that reaches the end of the loop writes the ledger
    exactly once, at the very end: one document, holding all the records of
    the ledger as it then is and [totalVotes] equal to their number.  A run
    that ends with an exception writes nothing: the records gathered so far
    are lost. *)
Theorem main_saves_once_at_the_end :
  (forall fuel (cfg : IndexJs.config) envs iso s,
      let out := IndexJs.main fuel cfg envs iso s in
      (fst out = Ok (Some tt) ->
         exists d, written (trace (snd out)) = written (trace s) ++ [d]
                   /\ doc_votes d = votes (snd out)
                   /\ totalVotes (doc_statistics d)
                      = Z.of_nat (length (votes (snd out)))
                   /\ statistics (snd out) = Some (doc_statistics d))
      /\ (forall e, fst out = Throw e ->
            written (trace (snd out)) = written (trace s)))
  /\ (forall fuel (cfg : TimeBoxed.config) envs iso s,
        let out := TimeBoxed.main fuel cfg envs iso s in
        (fst out = Ok (Some tt) ->
           exists d, written (trace (snd out)) = written (trace s) ++ [d]
                     /\ doc_votes d = votes (snd out)
                     /\ totalVotes (doc_statistics d)
                        = Z.of_nat (length (votes (snd out)))
                     /\ statistics (snd out) = Some (doc_statistics d))
        /\ (forall e, fst out = Throw e ->
              written (trace (snd out)) = written (trace s))).
Proof.
  split.
  - intros fuel cfg envs iso s out. unfold out. rewrite indexjs_main_run.
    pose proof (indexjs_loop_calm fuel cfg envs 0%nat 0 s) as (_ & _ & Hw).
    destruct (IndexJs.main_loop fuel cfg envs 0%nat 0 s) as [[[t|]|e] s1];
      cbn [fst snd] in Hw |- *; split; try discriminate.
    + intros _. eexists. cbn [trace votes statistics].
      rewrite written_app, Hw. cbn [written].
      repeat split; reflexivity.
    + intros e' _. exact Hw.
  - intros fuel cfg envs iso s out. unfold out. rewrite timeboxed_main_run.
    pose proof (timeboxed_loop_calm fuel cfg envs 0%nat 0 s) as (_ & _ & Hw).
    destruct (TimeBoxed.main_loop fuel cfg envs 0%nat 0 s) as [[[t|]|e] s1];
      cbn [fst snd] in Hw |- *; split; try discriminate.
    + intros _. eexists. cbn [trace votes statistics].
      rewrite written_app, Hw. cbn [written].
      repeat split; reflexivity.
    + intros e' _. exact Hw.
Qed.

Lemma main_saves_once_at_the_end_witness :
  fst (IndexJs.main 4 small_config (fun _ => example_session 10)
         "2024-09-01T11:00:00.000Z" initial_store) = Ok (Some tt)
  /\ exists d,
       written (trace (snd (IndexJs.main 4 small_config (fun _ => example_session 10)
                              "2024-09-01T11:00:00.000Z" initial_store)))
       = written (trace initial_store) ++ [d]
       /\ doc_votes d
          = votes (snd (IndexJs.main 4 small_config (fun _ => example_session 10)
                          "2024-09-01T11:00:00.000Z" initial_store)).
Proof.
  assert (H : fst (IndexJs.main 4 small_config (fun _ => example_session 10)
                     "2024-09-01T11:00:00.000Z" initial_store) = Ok (Some tt))
    by (vm_compute; reflexivity).
  split; [exact H|].
  destruct (proj1 (proj1 main_saves_once_at_the_end 4%nat small_config
                     (fun _ => example_session 10) "2024-09-01T11:00:00.000Z"
                     initial_store) H) as (d & Hw & Hv & _).
  exists d. split; assumption.
Defined.


Lemma quiet_logged (s : store) (t : list event) :
  written t = [] -> launches t = 0%nat -> closes t = 0%nat ->
  quiet s (mkStore (votes s) (statistics s) (trace s ++ t)).
Proof.
  intros Hw Hl Hc. unfold quiet. cbn [votes statistics trace].
  rewrite written_app, launches_app, closes_app, Hw, Hl, Hc, app_nil_r.
  repeat split; try lia. exists []. now rewrite app_nil_r.
Qed.





(** X4. The launch of the browser is outside every [try]: when it throws in
    a round the loop reaches, the exception ends the loop and [main], the
    ledger is left as it was and is not written. *)
Theorem failed_launch_ends_the_run :
  (forall fuel (cfg : IndexJs.config) envs k total s e,
      total < IndexJs.maxVotes cfg ->
      launch_answer (envs k) = Throw e ->
      IndexJs.main_loop (S fuel) cfg envs k total s
      = (Throw e, mkStore (votes s) (statistics s)
                    (trace s ++ [ELog MsgNewSession; ELaunch])))
  /\ (forall fuel (cfg : IndexJs.config) envs iso s e,
        0 < IndexJs.maxVotes cfg ->
        launch_answer (envs 0%nat) = Throw e ->
        fst (IndexJs.main (S fuel) cfg envs iso s) = Throw e
        /\ votes (snd (IndexJs.main (S fuel) cfg envs iso s)) = votes s
        /\ written (trace (snd (IndexJs.main (S fuel) cfg envs iso s)))
           = written (trace s))
  /\ (forall fuel (cfg : TimeBoxed.config) envs k total s e,
        total < TimeBoxed.maxVotes cfg ->
        TimeBoxed.window_start cfg <= hour (envs k) < TimeBoxed.window_end cfg ->
        launch_answer (envs k) = Throw e ->
        TimeBoxed.main_loop (S fuel) cfg envs k total s
        = (Throw e, mkStore (votes s) (statistics s)
                      (trace s ++ [ELog MsgNewSession; ELaunch]))).
Proof.
  split; [|split].
  - intros fuel cfg envs k total s e Hq Hl. cbn [IndexJs.main_loop].
    apply Z.ltb_lt in Hq. rewrite Hq. unfold bind.
    now rewrite (indexjs_round_launch_throws cfg (envs k) total e s Hl).
  - intros fuel cfg envs iso s e Hq Hl. rewrite indexjs_main_run.
    cbn [IndexJs.main_loop]. apply Z.ltb_lt in Hq. rewrite Hq. unfold bind.
    rewrite (indexjs_round_launch_throws cfg (envs 0%nat) 0 e s Hl).
    cbn [fst snd votes trace]. rewrite written_app. cbn.
    now rewrite app_nil_r.
  - intros fuel cfg envs k total s e Hq Hw Hl. cbn [TimeBoxed.main_loop].
    apply Z.ltb_lt in Hq. rewrite Hq. unfold bind.
    apply isWithinVoteWindow_spec in Hw.
    now rewrite (timeboxed_round_launch_throws cfg (envs k) total e s Hw Hl).
Qed.

Lemma failed_launch_ends_the_run_witness :
  0 < IndexJs.maxVotes small_config
  /\ launch_answer failed_launch_session
     = Throw "Failed to launch the browser process"
  /\ fst (IndexJs.main 3 small_config (fun _ => failed_launch_session)
            "2024-09-01T11:00:00.000Z" three_votes)
     = Throw "Failed to launch the browser process"
  /\ written (trace (snd (IndexJs.main 3 small_config (fun _ => failed_launch_session)
                            "2024-09-01T11:00:00.000Z" three_votes))) = [].
Proof.
  assert (Hq : 0 < IndexJs.maxVotes small_config) by (cbn; lia).
  assert (Hl : launch_answer ((fun _ : nat => failed_launch_session) 0%nat)
               = Throw "Failed to launch the browser process") by reflexivity.
  destruct (proj1 (proj2 failed_launch_ends_the_run) 2%nat small_config
              (fun _ => failed_launch_session) "2024-09-01T11:00:00.000Z"
              three_votes _ Hq Hl) as (Hr & _ & Hw).
  split; [exact Hq|]. split; [reflexivity|]. split; [exact Hr | exact Hw].
Defined.

(** ** The running total *)

Lemma indexjs_round_returns (cfg : IndexJs.config) (env : session_env) (total : Z) :
  returns (IndexJs.main_round cfg env total)
    (fun t => t = total \/ t = total + randomInterval (batch_draw env) 1 5).
Proof.
  unfold IndexJs.main_round.
  do 3 (apply returns_then; intros ?).
  apply returns_if.
  - do 2 (apply returns_then; intros ?). apply returns_ret. now left.
  - apply (returns_bind _ _
             (fun t => t = total \/ t = total + randomInterval (batch_draw env) 1 5)).
    + apply returns_try.
      * do 6 (apply returns_then; intros ?). apply returns_if.
        -- apply returns_then; intros ?. apply returns_ret. now right.
        -- apply returns_ret. now left.
      * intros e. apply returns_then; intros ?. apply returns_ret. now left.
    + intros t Ht. do 4 (apply returns_then; intros ?). now apply returns_ret.
Qed.

Lemma timeboxed_round_returns (cfg : TimeBoxed.config) (env : session_env)
    (total : Z) :
  returns (TimeBoxed.main_round cfg env total)
    (fun t => t = total \/ t = total + 5).
Proof.
  unfold TimeBoxed.main_round. apply returns_if.
  - do 2 (apply returns_then; intros ?). apply returns_ret. now left.
  - do 3 (apply returns_then; intros ?).
    apply returns_if.
    + do 2 (apply returns_then; intros ?). apply returns_ret. now left.
    + apply (returns_bind _ _ (fun t => t = total \/ t = total + 5)).
      * apply returns_try.
        -- do 6 (apply returns_then; intros ?). apply returns_if.
           ++ apply returns_then; intros ?. apply returns_ret. now right.
           ++ apply returns_ret. now left.
        -- intros e. apply returns_then; intros ?. apply returns_ret. now left.
      * intros t Ht. do 4 (apply returns_then; intros ?). now apply returns_ret.
Qed.

Lemma indexjs_loop_total (fuel : nat) (cfg : IndexJs.config)
    (envs : nat -> session_env) :
  (forall j, unit_draw (batch_draw (envs j))) ->
  forall k total s t,
    fst (IndexJs.main_loop fuel cfg envs k total s) = Ok (Some t) ->
    if total <? IndexJs.maxVotes cfg
    then IndexJs.maxVotes cfg <= t <= IndexJs.maxVotes cfg + 4
    else t = total.
Proof.
  intros Hu. induction fuel as [|n IH]; intros k total s t;
    cbn [IndexJs.main_loop].
  - destruct (total <? IndexJs.maxVotes cfg); cbn; [discriminate|].
    now intros [= <-].
  - destruct (Z.ltb_spec total (IndexJs.maxVotes cfg)) as [Hlt|Hge];
      [|cbn; now intros [= <-]].
    unfold bind.
    pose proof (indexjs_round_returns cfg (envs k) total s) as Hr.
    destruct (IndexJs.main_round cfg (envs k) total s) as [[t1|e] s1];
      cbn [fst] in Hr |- *; [|discriminate].
    specialize (Hr t1 eq_refl). intros Hloop.
    specialize (IH (S k) t1 s1 t Hloop).
    pose proof (randomInterval_in_range (batch_draw (envs k)) 1 5 ltac:(lia)
                  (Hu k)) as Hb.
    destruct (Z.ltb_spec t1 (IndexJs.maxVotes cfg)); lia.
Qed.

Lemma timeboxed_loop_total (fuel : nat) (cfg : TimeBoxed.config)
    (envs : nat -> session_env) :
  forall k total s t,
    fst (TimeBoxed.main_loop fuel cfg envs k total s) = Ok (Some t) ->
    (exists batches, 0 <= batches /\ t = total + 5 * batches)
    /\ if total <? TimeBoxed.maxVotes cfg
       then TimeBoxed.maxVotes cfg <= t <= TimeBoxed.maxVotes cfg + 4
       else t = total.
Proof.
  induction fuel as [|n IH]; intros k total s t; cbn [TimeBoxed.main_loop].
  - destruct (total <? TimeBoxed.maxVotes cfg); cbn; [discriminate|].
    intros [= <-]. split; [exists 0; lia | reflexivity].
  - destruct (Z.ltb_spec total (TimeBoxed.maxVotes cfg)) as [Hlt|Hge].
    + unfold bind.
      pose proof (timeboxed_round_returns cfg (envs k) total s) as Hr.
      destruct (TimeBoxed.main_round cfg (envs k) total s) as [[t1|e] s1];
        cbn [fst] in Hr |- *; [|discriminate].
      specialize (Hr t1 eq_refl). intros Hloop.
      destruct (IH (S k) t1 s1 t Hloop) as [(b & Hb0 & Hb) Hq].
      split.
      * destruct Hr as [-> | ->]; [exists b; lia | exists (b + 1); lia].
      * destruct (Z.ltb_spec t1 (TimeBoxed.maxVotes cfg)); lia.
    + cbn. intros [= <-]. split; [exists 0; lia | reflexivity].
Qed.

(** X5. The running total counts whole batches, so the loop can overshoot
    the quota.  When the loop of index.js ends (batch draws in [[0,1)]), the
    total lies between the quota and the quota plus 4.  When the loop of the
    time-boxed variant ends, the total is the least multiple of 5 that
    reaches the quota. *)
Theorem final_total_overshoots_by_less_than_a_batch :
  (forall fuel (cfg : IndexJs.config) envs s t,
      0 < IndexJs.maxVotes cfg ->
      (forall j, unit_draw (batch_draw (envs j))) ->
      fst (IndexJs.main_loop fuel cfg envs 0%nat 0 s) = Ok (Some t) ->
      IndexJs.maxVotes cfg <= t <= IndexJs.maxVotes cfg + 4)
  /\ (forall fuel (cfg : TimeBoxed.config) envs s t,
        0 < TimeBoxed.maxVotes cfg ->
        fst (TimeBoxed.main_loop fuel cfg envs 0%nat 0 s) = Ok (Some t) ->
        t = 5 * ((TimeBoxed.maxVotes cfg + 4) / 5)).
Proof.
  split.
  - intros fuel cfg envs s t Hq Hu Hloop.
    pose proof (indexjs_loop_total fuel cfg envs Hu 0%nat 0 s t Hloop) as H.
    apply Z.ltb_lt in Hq. now rewrite Hq in H.
  - intros fuel cfg envs s t Hq Hloop.
    destruct (timeboxed_loop_total fuel cfg envs 0%nat 0 s t Hloop)
      as [(b & Hb0 & Hb) H].
    pose proof Hq as Hq'. apply Z.ltb_lt in Hq'. rewrite Hq' in H.
    assert (Hdiv : (TimeBoxed.maxVotes cfg + 4) / 5 = b).
    { symmetry. apply (Z.div_unique _ 5 b (TimeBoxed.maxVotes cfg + 4 - 5 * b));
        lia. }
    rewrite Hdiv. lia.
Qed.

Lemma final_total_overshoots_by_less_than_a_batch_witness :
  (0 < IndexJs.maxVotes small_config
   /\ (forall j : nat, unit_draw (batch_draw (example_session 10)))
   /\ fst (IndexJs.main_loop 4 small_config (fun _ => example_session 10)
             0%nat 0 initial_store) = Ok (Some 9)
   /\ IndexJs.maxVotes small_config <= 9 <= IndexJs.maxVotes small_config + 4)
  /\ (0 < TimeBoxed.maxVotes small_timeboxed_config
      /\ fst (TimeBoxed.main_loop 4 small_timeboxed_config
                (fun _ => example_session 10) 0%nat 0 initial_store)
         = Ok (Some 10)
      /\ 10 = 5 * ((TimeBoxed.maxVotes small_timeboxed_config + 4) / 5)).
Proof.
  assert (Hq : 0 < IndexJs.maxVotes small_config) by (cbn; lia).
  assert (Hu : forall j : nat,
             unit_draw (batch_draw ((fun _ : nat => example_session 10) j)))
    by (intros j; split; cbn; lra).
  assert (Hrun : fst (IndexJs.main_loop 4 small_config (fun _ => example_session 10)
                        0%nat 0 initial_store) = Ok (Some 9))
    by (vm_compute; reflexivity).
  assert (Hq' : 0 < TimeBoxed.maxVotes small_timeboxed_config) by (cbn; lia).
  assert (Hrun' : fst (TimeBoxed.main_loop 4 small_timeboxed_config
                         (fun _ => example_session 10) 0%nat 0 initial_store)
                  = Ok (Some 10))
    by (vm_compute; reflexivity).
  split.
  - split; [exact Hq|]. split; [exact Hu|]. split; [exact Hrun|].
    exact (proj1 final_total_overshoots_by_less_than_a_batch 4%nat small_config
             (fun _ => example_session 10) initial_store 9 Hq Hu Hrun).
  - split; [exact Hq'|]. split; [exact Hrun'|].
    exact (proj2 final_total_overshoots_by_less_than_a_batch 4%nat
             small_timeboxed_config (fun _ => example_session 10) initial_store
             10 Hq' Hrun').
Defined.







Lemma inverted_window_loop (cfg : TimeBoxed.config) (envs : nat -> session_env) :
  TimeBoxed.window_end cfg <= TimeBoxed.window_start cfg ->
  forall fuel k total s,
    total < TimeBoxed.maxVotes cfg ->
    fst (TimeBoxed.main_loop fuel cfg envs k total s) = Ok None
    /\ quiet s (snd (TimeBoxed.main_loop fuel cfg envs k total s))
    /\ votes (snd (TimeBoxed.main_loop fuel cfg envs k total s)) = votes s.
Proof.
  intros Hinv. induction fuel as [|n IH]; intros k total s Hq;
    cbn [TimeBoxed.main_loop]; pose proof Hq as Hq'; apply Z.ltb_lt in Hq';
    rewrite Hq'.
  - split; [reflexivity|]. split; [apply quiet_refl | reflexivity].
  - assert (Hw : TimeBoxed.isWithinVoteWindow cfg (hour (envs k)) = false).
    { unfold TimeBoxed.isWithinVoteWindow. lia. }
    unfold bind. rewrite (outside_window_round cfg (envs k) total s Hw).
    destruct (IH (S k) total
                (mkStore (votes s) (statistics s)
                   (trace s ++
                      [ ELog MsgOutsideWindow;
                        ESleep (inject_Z (randomInterval (window_draw (envs k))
                                            60000 120000)) ])) Hq)
      as (Hr & Hquiet & Hv).
    split; [exact Hr|]. split; [|exact Hv].
    eapply quiet_trans; [|exact Hquiet]. now apply quiet_logged.
Qed.

(** X7. A vote window whose end is not after its start (for instance 22 to
    6, meant to wrap around midnight) is empty: no hour lies inside it, and
    with a positive quota the time-boxed script then waits forever.  However
    many rounds it makes, the loop is still unfinished, has opened no
    browser, recorded no vote and written no file. *)
Theorem inverted_window_never_votes (cfg : TimeBoxed.config) :
  TimeBoxed.window_end cfg <= TimeBoxed.window_start cfg ->
  (forall h, TimeBoxed.isWithinVoteWindow cfg h = false)
  /\ (0 < TimeBoxed.maxVotes cfg ->
      forall fuel envs iso s,
        let out := TimeBoxed.main fuel cfg envs iso s in
        fst out = Ok None
        /\ launches (trace (snd out)) = launches (trace s)
        /\ votes (snd out) = votes s
        /\ written (trace (snd out)) = written (trace s)).
Proof.
  intros Hinv. split.
  - intros h. unfold TimeBoxed.isWithinVoteWindow. lia.
  - intros Hq fuel envs iso s out. unfold out. rewrite timeboxed_main_run.
    destruct (inverted_window_loop cfg envs Hinv fuel 0%nat 0 s Hq)
      as (Hr & (_ & _ & Hw & Hl & _) & Hv).
    destruct (TimeBoxed.main_loop fuel cfg envs 0%nat 0 s) as [r s1].
    cbn in Hr, Hw, Hl, Hv. subst r. cbn. now repeat split.
Qed.

Lemma inverted_window_never_votes_witness :
  TimeBoxed.window_end night_config <= TimeBoxed.window_start night_config
  /\ 0 < TimeBoxed.maxVotes night_config
  /\ TimeBoxed.isWithinVoteWindow night_config 23 = false
  /\ fst (TimeBoxed.main 50 night_config (fun _ => example_session 23)
            "2024-09-01T23:30:00.000Z" initial_store) = Ok None.
Proof.
  assert (Hinv : TimeBoxed.window_end night_config
                 <= TimeBoxed.window_start night_config) by (cbn; lia).
  assert (Hq : 0 < TimeBoxed.maxVotes night_config) by (cbn; lia).
  destruct (inverted_window_never_votes night_config Hinv) as [Hh Hrun].
  destruct (Hrun Hq 50%nat (fun _ => example_session 23)
              "2024-09-01T23:30:00.000Z" initial_store) as (Hr & _).
  split; [exact Hinv|]. split; [exact Hq|]. split; [apply Hh | exact Hr].
Defined.

(** ** [navigateWithRetry] with any budget *)








(** ** [handleConsents] *)

(** X9. [handleConsents] never throws, whatever the page answers, and does
    not touch the ledger.  The two overlays are handled one after the other
    and independently: the cookie button is waited for whether or not the
    consent button appeared or could be clicked; a button is clicked only
    after its wait succeeded; a wait or click that throws is logged as
    skipped; the function always ends with its completion line. *)
Theorem handleConsents_never_fails
    (env : consent_env) (sel : selectors) (s : store) :
  handleConsents env sel s
  = (Ok tt,
     mkStore (votes s) (statistics s)
       (trace s
          ++ overlay_events (consentButton sel) (consent_wait env)
               (consent_click env) MsgConsentSkipped
          ++ overlay_events (cookieButton sel) (cookie_wait env)
               (cookie_click env) MsgCookieSkipped
          ++ [ELog MsgConsentDone])).
Proof.
  unfold handleConsents, bind, try_catch, call, log, emit, overlay_events.
  destruct (consent_wait env) as [[]|], (consent_click env) as [[]|],
    (cookie_wait env) as [[]|], (cookie_click env) as [[]|];
    cbn [fst snd votes statistics trace]; flatten_trace; reflexivity.
Qed.

(** ** The target of a round *)

Lemma alternative_slot_in_range (sel : selectors) (r : Q) :
  alternativeVoteButtonIds sel <> [] -> unit_draw r ->
  0 <= alternative_slot sel r
  < Z.of_nat (length (alternativeVoteButtonIds sel)).
Proof.
  intros Hne [H0 H1]. unfold alternative_slot.
  set (n := Z.of_nat (length (alternativeVoteButtonIds sel))).
  assert (Hn : 1 <= n).
  { unfold n. destruct (alternativeVoteButtonIds sel); [contradiction|].
    cbn [length]. lia. }
  assert (HnQ : (0 < inject_Z n)%Q).
  { change 0%Q with (inject_Z 0). rewrite <- Zlt_Qlt. lia. }
  assert (Hb : 0 <= Qfloor (r * inject_Z n) <= n - 1).
  { apply Qfloor_bounds.
    - change (inject_Z 0) with 0%Q.
      apply Qmult_le_0_compat; [exact H0 | now apply Qlt_le_weak].
    - assert (E : (inject_Z (n - 1) + 1 == inject_Z n)%Q).
      { unfold Qeq. cbn. lia. }
      rewrite E. rewrite <- (Qmult_1_l (inject_Z n)) at 2.
      now apply Qmult_lt_compat_r. }
  lia.
Qed.

(** X10. The pick among the alternatives stays inside the list: for a draw
    in [[0,1)] and a non-empty list, the index is in range and the pick is
    one of the configured identifiers, never [undefined].  With an empty
    list the pick is [undefined], and the round then looks for the button
    [button[data-id="undefined"]]. *)
Theorem pickAlternative_in_list (sel : selectors) (r : Q) :
  (alternativeVoteButtonIds sel <> [] -> unit_draw r ->
     exists id, pickAlternative sel r = Some id
                /\ id ∈ alternativeVoteButtonIds sel)
  /\ (alternativeVoteButtonIds sel = [] ->
      pickAlternative sel r = None
      /\ buttonSelector (pickAlternative sel r)
         = ("button[data-id=" ++ dquote ++ "undefined" ++ dquote ++ "]")%string).
Proof.
  split.
  - intros Hne Hr.
    pose proof (alternative_slot_in_range sel r Hne Hr) as Hslot.
    unfold pickAlternative, js_index. fold (alternative_slot sel r).
    destruct (Z.ltb_spec (alternative_slot sel r) 0) as [|_]; [lia|].
    destruct (lookup_lt_is_Some_2 (alternativeVoteButtonIds sel)
                (Z.to_nat (alternative_slot sel r)) ltac:(lia)) as [id Hid].
    exists id. split; [exact Hid|].
    eapply list_elem_of_lookup_2. exact Hid.
  - intros Hempty.
    assert (Hp : pickAlternative sel r = None).
    { unfold pickAlternative. rewrite Hempty. cbn [length Z.of_nat].
      rewrite (Qfloor_comp _ (inject_Z 0)); [reflexivity|].
      change (inject_Z 0) with 0%Q. ring. }
    rewrite Hp. now split.
Qed.

Lemma pickAlternative_in_list_witness :
  alternativeVoteButtonIds example_selectors <> []
  /\ unit_draw (99 # 100)
  /\ (exists id, pickAlternative example_selectors (99 # 100) = Some id
                 /\ id ∈ alternativeVoteButtonIds example_selectors)
  /\ pickAlternative (mkSelectors "#consent" "#cookie" "main" [] "#confirmation"
                        "#top20") (99 # 100) = None.
Proof.
  assert (Hne : alternativeVoteButtonIds example_selectors <> []) by discriminate.
  assert (Hu : unit_draw (99 # 100)) by (split; lra).
  split; [exact Hne|]. split; [exact Hu|]. split.
  - exact (proj1 (pickAlternative_in_list example_selectors (99 # 100)) Hne Hu).
  - exact (proj1 (proj2 (pickAlternative_in_list
                           (mkSelectors "#consent" "#cookie" "main" []
                              "#confirmation" "#top20") (99 # 100)) eq_refl)).
Defined.

(** X11. The configured percentage of the time-boxed variant is clamped by
    the comparison itself: at 0 or below the main target is never chosen,
    at 100 or above it is always chosen, for every draw in [[0,1)]. *)
Theorem timeboxed_percentage_extremes (cfg : TimeBoxed.config) (r : Q) :
  unit_draw r ->
  ((TimeBoxed.mainVotePercentage cfg <= 0)%Q ->
     TimeBoxed.voteForMain cfg r = false)
  /\ ((100 <= TimeBoxed.mainVotePercentage cfg)%Q ->
      TimeBoxed.voteForMain cfg r = true).
Proof.
  intros [H0 H1].
  assert (Hp : (TimeBoxed.mainVotePercentage cfg / 100
                == TimeBoxed.mainVotePercentage cfg * (1 # 100))%Q) by field.
  split; intros Hpct.
  - destruct (TimeBoxed.voteForMain cfg r) eqn:E; [|reflexivity].
    apply timeboxed_voteForMain_spec in E. rewrite Hp in E. lra.
  - apply timeboxed_voteForMain_spec. rewrite Hp. lra.
Qed.

Lemma timeboxed_percentage_extremes_witness :
  unit_draw (1 # 2)
  /\ (TimeBoxed.mainVotePercentage
        (TimeBoxed.mkConfig 0 30 7 8 22 "https://example.org/top20"
           example_selectors "/app") <= 0)%Q
  /\ TimeBoxed.voteForMain
       (TimeBoxed.mkConfig 0 30 7 8 22 "https://example.org/top20"
          example_selectors "/app") (1 # 2) = false.
Proof.
  assert (Hu : unit_draw (1 # 2)) by (split; lra).
  assert (Hp : (TimeBoxed.mainVotePercentage
                  (TimeBoxed.mkConfig 0 30 7 8 22 "https://example.org/top20"
                     example_selectors "/app") <= 0)%Q) by (cbn; lra).
  split; [exact Hu|]. split; [exact Hp|].
  exact (proj1 (timeboxed_percentage_extremes _ (1 # 2) Hu) Hp).
Defined.


(** ** Where the records of a batch come from *)

Lemma round_record_provenance (id : option string) (env : vote_env) :
  Forall (fun v => clicked env = true
                   /\ display_answer env = Ok "block"
                   /\ v = mkVote id (now env))
    (round_record id env).
Proof.
  unfold round_record, confirmation_block.
  destruct (clicked env); cbn [andb]; [|constructor].
  destruct (display_answer env) as [d|e]; [|constructor].
  destruct (String.eqb_spec d "block") as [->|]; constructor; [|constructor].
  now repeat split.
Qed.

Lemma vote_rounds_provenance (voteForMain : Q -> bool) (sel : selectors)
    (minDelay maxDelay : Z) (envs : Z -> vote_env) (rounds : nat) :
  forall i s,
  exists added,
    votes (snd (for_from rounds i
                  (fun j => vote_round voteForMain sel minDelay maxDelay (envs j) j)
                  s))
      = votes s ++ added
    /\ Forall (fun v => exists j,
                   i <= j < i + Z.of_nat rounds
                   /\ clicked (envs j) = true
                   /\ display_answer (envs j) = Ok "block"
                   /\ v = mkVote (chosen_id voteForMain sel (envs j)) (now (envs j)))
         added.
Proof.
  induction rounds as [|n IH]; intros i s.
  - exists []. cbn. rewrite app_nil_r. split; [reflexivity | constructor].
  - cbn [for_from]. unfold bind.
    destruct (vote_round_yields voteForMain sel minDelay maxDelay (envs i) i s)
      as [_ Hv].
    pose proof (round_record_provenance (chosen_id voteForMain sel (envs i))
                  (envs i)) as Hp.
    assert (Hhere : Forall (fun v => exists j,
                       i <= j < i + Z.of_nat (S n)
                       /\ clicked (envs j) = true
                       /\ display_answer (envs j) = Ok "block"
                       /\ v = mkVote (chosen_id voteForMain sel (envs j))
                                (now (envs j)))
                      (round_record (chosen_id voteForMain sel (envs i)) (envs i))).
    { eapply Forall_impl; [exact Hp|]. intros v Hvv. exists i. split; [lia|].
      exact Hvv. }
    destruct (vote_round voteForMain sel minDelay maxDelay (envs i) i s)
      as [[[|b]|e] s1]; cbn [snd] in Hv |- *.
    + destruct (IH (i + 1) s1) as (l & Hl & Hall).
      exists (round_record (chosen_id voteForMain sel (envs i)) (envs i) ++ l).
      split; [now rewrite Hl, Hv, app_assoc|].
      apply Forall_app. split; [exact Hhere|].
      eapply Forall_impl; [exact Hall|].
      intros v (j & Hj & Hrest). exists j. split; [lia | exact Hrest].
    + eexists. split; [exact Hv | exact Hhere].
    + eexists. split; [exact Hv | exact Hhere].
Qed.

Lemma pickAlternative_member (sel : selectors) (r : Q) :
  alternativeVoteButtonIds sel <> [] -> unit_draw r ->
  exists id, pickAlternative sel r = Some id /\ id ∈ alternativeVoteButtonIds sel.
Proof.
  intros Hne Hr.
  pose proof (alternative_slot_in_range sel r Hne Hr) as Hslot.
  unfold pickAlternative, js_index. fold (alternative_slot sel r).
  destruct (Z.ltb_spec (alternative_slot sel r) 0) as [|_]; [lia|].
  destruct (lookup_lt_is_Some_2 (alternativeVoteButtonIds sel)
              (Z.to_nat (alternative_slot sel r)) ltac:(lia)) as [id Hid].
  exists id. split; [exact Hid|].
  eapply list_elem_of_lookup_2. exact Hid.
Qed.

Lemma chosen_id_names_target (voteForMain : Q -> bool) (sel : selectors)
    (env : vote_env) (t : string) :
  alternativeVoteButtonIds sel <> [] -> unit_draw (alt_draw env) ->
  names_target sel (mkVote (chosen_id voteForMain sel env) t).
Proof.
  intros Hne Hu. unfold names_target, chosen_id, chooseButtonId. cbn [buttonId].
  destruct (voteForMain (main_draw env)).
  - exists (mainVoteButtonId sel). split; [reflexivity | now left].
  - destruct (pickAlternative_member sel (alt_draw env) Hne Hu) as (id & Hid & Hin).
    exists id. split; [exact Hid | now right].
Qed.

Lemma vote_loop_provenance
    (voteForMain : Q -> bool) (sel : selectors) (minDelay maxDelay : Z)
    (envs : Z -> vote_env) (times : Z) (s : store) :
  exists added,
    votes (snd (vote_loop voteForMain sel minDelay maxDelay envs times s))
      = votes s ++ added
    /\ Forall (fun v => exists j,
                   0 <= j < times
                   /\ clicked (envs j) = true
                   /\ display_answer (envs j) = Ok "block"
                   /\ timestamp v = now (envs j))
         added
    /\ (alternativeVoteButtonIds sel <> [] ->
        (forall j, unit_draw (alt_draw (envs j))) ->
        Forall (names_target sel) added).
Proof.
  unfold vote_loop, for_loop, bind.
  destruct (vote_rounds_provenance voteForMain sel minDelay maxDelay envs
              (Z.to_nat times) 0 s) as (l & Hl & Hall).
  exists l. split; [|split].
  - destruct (for_from _ _ _ s) as [[o|e] s1]; exact Hl.
  - eapply Forall_impl; [exact Hall|].
    intros v (j & Hj & Hc & Hd & ->). exists j. split; [lia|]. now repeat split.
  - intros Hne Hu. eapply Forall_impl; [exact Hall|].
    intros v (j & _ & _ & _ & ->). now apply chosen_id_names_target.
Qed.

(** The [catch] of index.js adds nothing to the ledger. *)
Lemma indexjs_voteMultipleTimes_votes (envs : Z -> vote_env) (sel : selectors)
    (times minDelay maxDelay : Z) (s : store) :
  votes (snd (IndexJs.voteMultipleTimes envs sel times minDelay maxDelay s))
  = votes (snd (vote_loop IndexJs.voteForMain sel minDelay maxDelay envs times s)).
Proof.
  unfold IndexJs.voteMultipleTimes, try_catch.
  now destruct (vote_loop _ _ _ _ _ _ s) as [[b|e] s1].
Qed.

(** X13. Every record [voteMultipleTimes] adds to the ledger, also when an
    exception cuts the batch short, comes from one of its rounds in which
    the click took place and the confirmation showed ['block'], and carries
    the timestamp read in that round.  When the alternative list is not
    empty (draws in [[0,1)]), every such record names the main target or
    one of the alternatives. *)
Theorem batch_records_are_confirmed_votes
    (sel : selectors) (minDelay maxDelay : Z) (envs : Z -> vote_env)
    (times : Z) (s : store) :
  let confirmed_in_batch v :=
    exists j, 0 <= j < times
              /\ clicked (envs j) = true
              /\ display_answer (envs j) = Ok "block"
              /\ timestamp v = now (envs j) in
  (exists added,
      votes (snd (IndexJs.voteMultipleTimes envs sel times minDelay maxDelay s))
        = votes s ++ added
      /\ Forall confirmed_in_batch added
      /\ (alternativeVoteButtonIds sel <> [] ->
          (forall j, unit_draw (alt_draw (envs j))) ->
          Forall (names_target sel) added))
  /\ (forall cfg : TimeBoxed.config,
        exists added,
          votes (snd (TimeBoxed.voteMultipleTimes cfg envs sel times minDelay
                        maxDelay s))
            = votes s ++ added
          /\ Forall confirmed_in_batch added
          /\ (alternativeVoteButtonIds sel <> [] ->
              (forall j, unit_draw (alt_draw (envs j))) ->
              Forall (names_target sel) added)).
Proof.
  intros confirmed_in_batch. split.
  - rewrite indexjs_voteMultipleTimes_votes. apply vote_loop_provenance.
  - intros cfg. apply vote_loop_provenance.
Qed.

Lemma batch_records_are_confirmed_votes_witness :
  alternativeVoteButtonIds example_selectors <> []
  /\ (forall j, unit_draw (alt_draw (missing_button_envs j)))
  /\ exists added,
       votes (snd (IndexJs.voteMultipleTimes missing_button_envs
                     example_selectors 3 3000 7000 three_votes))
       = votes three_votes ++ added
       /\ Forall (names_target example_selectors) added.
Proof.
  assert (Hne : alternativeVoteButtonIds example_selectors <> []) by discriminate.
  assert (Hu : forall j, unit_draw (alt_draw (missing_button_envs j))).
  { intros j. unfold missing_button_envs. destruct (j =? 0); split; cbn; lra. }
  destruct (proj1 (batch_records_are_confirmed_votes example_selectors 3000 7000
                     missing_button_envs 3 three_votes))
    as (added & Hv & _ & Hn).
  split; [exact Hne|]. split; [exact Hu|].
  exists added. split; [exact Hv | exact (Hn Hne Hu)].
Defined.

(** ** The summary, identifier by identifier *)

Lemma proto_is_inherited : "__proto__" ∈ object_prototype_members.
Proof. unfold object_prototype_members. set_solver. Qed.

Lemma count_vote_lookup_other (acc : gmap string jsval) (v : vote) (k : string) :
  count_key v <> k -> count_vote acc v !! k = acc !! k.
Proof.
  intros Hne. unfold count_vote. fold (count_key v). unfold js_set.
  destruct (String.eqb (count_key v) "__proto__"); [reflexivity|].
  now apply lookup_insert_ne.
Qed.

Lemma voteCounts_key (vs : list vote) (k : string) :
  k ∉ object_prototype_members ->
  voteCounts vs !! k
  = if multiplicity k vs =? 0 then None else Some (JNum (multiplicity k vs)).
Proof.
  intros Hk. induction vs as [|v vs IH] using rev_ind; [reflexivity|].
  rewrite voteCounts_snoc, multiplicity_snoc.
  pose proof (multiplicity_nonneg k vs) as Hm.
  destruct (decide (count_key v = k)) as [E|Hne].
  - unfold count_vote. fold (count_key v). rewrite E. unfold js_set, js_get.
    assert (Hp : String.eqb k "__proto__" = false).
    { apply String.eqb_neq. intros ->. apply Hk, proto_is_inherited. }
    rewrite Hp, lookup_insert_eq, IH.
    destruct (Z.eqb_spec (multiplicity k vs) 0) as [E0|E0].
    + rewrite bool_decide_eq_false_2 by exact Hk. rewrite E0. reflexivity.
    + cbn. destruct (Z.eqb_spec (multiplicity k vs + 1) 0); [lia | reflexivity].
  - rewrite count_vote_lookup_other by exact Hne. now rewrite Z.add_0_r.
Qed.

Lemma voteCounts_keys_have_records (vs : list vote) (k : string) (x : jsval) :
  voteCounts vs !! k = Some x -> 0 < multiplicity k vs.
Proof.
  induction vs as [|v vs IH] using rev_ind; [discriminate|].
  rewrite voteCounts_snoc, multiplicity_snoc.
  pose proof (multiplicity_nonneg k vs) as Hm.
  destruct (decide (count_key v = k)) as [E|Hne]; [lia|].
  rewrite count_vote_lookup_other by exact Hne. intros H.
  specialize (IH H). lia.
Qed.

Lemma voteCounts_no_proto (vs : list vote) : voteCounts vs !! "__proto__" = None.
Proof.
  induction vs as [|v vs IH] using rev_ind; [reflexivity|].
  rewrite voteCounts_snoc. unfold count_vote. fold (count_key v). unfold js_set.
  destruct (String.eqb_spec (count_key v) "__proto__") as [E|Hne]; [exact IH|].
  now rewrite lookup_insert_ne.
Qed.

(** X14. In the summary [saveVoteLog] derives, an identifier that [{}] does
    not inherit has exactly its number of records as count, and no entry
    when it has no record, whatever other identifiers the ledger holds;
    every key of [votesByCandidate] is the identifier of some record; and
    [__proto__] is never a key. *)
Theorem summary_counts_per_identifier
    (file : string -> string) (iso : string) (s : store) :
  exists st : stats,
    statistics (snd (saveVoteLog file iso s)) = Some st
    /\ totalVotes st = Z.of_nat (length (votes s))
    /\ (forall k, k ∉ object_prototype_members ->
          votesByCandidate st !! k
          = if multiplicity k (votes s) =? 0 then None
            else Some (JNum (multiplicity k (votes s))))
    /\ (forall k x, votesByCandidate st !! k = Some x ->
          0 < multiplicity k (votes s))
    /\ votesByCandidate st !! "__proto__" = None.
Proof.
  rewrite saveVoteLog_run. eexists. split; [reflexivity|].
  cbn [totalVotes votesByCandidate]. split; [reflexivity|].
  split; [intros k Hk; now apply voteCounts_key|].
  split; [apply voteCounts_keys_have_records | apply voteCounts_no_proto].
Qed.

Lemma summary_counts_per_identifier_witness :
  ("main" ∉ object_prototype_members)
  /\ exists st : stats,
       statistics (snd (saveVoteLog (IndexJs.logFilePath example_config)
                          "2024-09-01T11:00:00.000Z"
                          (mkStore (votes three_votes ++ votes inherited_key_ledger)
                             None [])))
       = Some st
       /\ votesByCandidate st !! "main" = Some (JNum 2).
Proof.
  assert (Hk : "main" ∉ object_prototype_members)
    by (apply (bool_decide_unpack _); vm_compute; exact I).
  split; [exact Hk|].
  destruct (summary_counts_per_identifier (IndexJs.logFilePath example_config)
              "2024-09-01T11:00:00.000Z"
              (mkStore (votes three_votes ++ votes inherited_key_ledger) None []))
    as (st & Hst & _ & Hcount & _).
  exists st. split; [exact Hst|]. exact (Hcount "main" Hk).
Defined.

(** X20. For a ledger of [k] records none of whose identifiers is a name
    that [{}] inherits, [saveVoteLog] writes the records as they are, with a
    summary in which [totalVotes] is [k], every identifier has its number
    of records as count, and the counts add up to [k]; the ledger itself is
    left as it was. *)
Theorem plain_ledger_summary_is_exact
    (file : string -> string) (iso : string) (s : store) :
  plain_keys (votes s) ->
  exists st : stats,
    written (trace (snd (saveVoteLog file iso s)))
    = written (trace s) ++ [mkDoc (votes s) st]
    /\ votes (snd (saveVoteLog file iso s)) = votes s
    /\ statistics (snd (saveVoteLog file iso s)) = Some st
    /\ totalVotes st = Z.of_nat (length (votes s))
    /\ (forall k, votesByCandidate st !! k
                  = if multiplicity k (votes s) =? 0 then None
                    else Some (JNum (multiplicity k (votes s))))
    /\ count_total (votesByCandidate st) = Z.of_nat (length (votes s)).
Proof.
  intros Hp.
  destruct (saveVoteLog_summary_plain file iso s Hp) as (st & Hs & Ht & Hk & Hc).
  exists st. rewrite Hs. cbn [votes statistics trace].
  rewrite written_app. cbn [written]. now repeat split.
Qed.

Lemma plain_ledger_summary_is_exact_witness :
  plain_keys (votes three_votes)
  /\ exists st : stats,
       statistics (snd (saveVoteLog (IndexJs.logFilePath example_config)
                          "2024-09-01T11:00:00.000Z" three_votes)) = Some st
       /\ totalVotes st = 3
       /\ votesByCandidate st !! "main" = Some (JNum 2)
       /\ count_total (votesByCandidate st) = 3.
Proof.
  assert (Hp : plain_keys (votes three_votes))
    by (apply (bool_decide_unpack _); vm_compute; exact I).
  split; [exact Hp|].
  destruct (plain_ledger_summary_is_exact (IndexJs.logFilePath example_config)
              "2024-09-01T11:00:00.000Z" three_votes Hp)
    as (st & _ & _ & Hs & Ht & Hk & Hc).
  exists st. split; [exact Hs|]. split; [exact Ht|].
  split; [exact (Hk "main") | exact Hc].
Defined.

(** ** File names *)

Lemma string_app_length (a b : string) :
  String.length (a ++ b)%string = (String.length a + String.length b)%nat.
Proof.
  induction a as [|c a IH]; [reflexivity|].
  change (S (String.length (a ++ b)%string)
          = S (String.length a + String.length b)).
  now f_equal.
Qed.

Lemma string_app_inj_l (p a b : string) :
  (p ++ a)%string = (p ++ b)%string -> a = b.
Proof.
  induction p as [|c p IH]; cbn; [easy|]. intros [= H]. now apply IH.
Qed.

Lemma string_app_inj_r (q : string) : forall a b : string,
  (a ++ q)%string = (b ++ q)%string -> a = b.
Proof.
  induction a as [|c a IH]; intros [|d b] H.
  - reflexivity.
  - apply (f_equal String.length) in H.
    rewrite !string_app_length in H. cbn in H. lia.
  - apply (f_equal String.length) in H.
    rewrite !string_app_length in H. cbn in H. lia.
  - cbn in H. injection H as -> H. f_equal. now apply IH.
Qed.

(** X15. The file name is a function of the instant of the save alone, and
    is one-to-one in it: two saves of a run at different instants never
    write to the same file, in either variant. *)
Theorem log_file_names_are_distinct :
  (forall (cfg : IndexJs.config) iso1 iso2,
      IndexJs.logFilePath cfg iso1 = IndexJs.logFilePath cfg iso2 -> iso1 = iso2)
  /\ (forall (cfg : TimeBoxed.config) iso1 iso2,
        TimeBoxed.logFilePath cfg iso1 = TimeBoxed.logFilePath cfg iso2 ->
        iso1 = iso2).
Proof.
  split; intros cfg iso1 iso2 H.
  - unfold IndexJs.logFilePath in H.
    do 3 apply string_app_inj_l in H. now apply string_app_inj_r in H.
  - unfold TimeBoxed.logFilePath in H.
    do 5 apply string_app_inj_l in H. now apply string_app_inj_r in H.
Qed.

Lemma log_file_names_are_distinct_witness :
  IndexJs.logFilePath example_config "2024-09-01T11:00:00.000Z"
  = IndexJs.logFilePath example_config "2024-09-01T11:00:00.000Z"
  /\ "2024-09-01T11:00:00.000Z" = "2024-09-01T11:00:00.000Z".
Proof.
  split; [reflexivity|].
  exact (proj1 log_file_names_are_distinct example_config
           "2024-09-01T11:00:00.000Z" "2024-09-01T11:00:00.000Z" eq_refl).
Defined.

(** ** Proxy and browser set-up *)

Lemma string_app_assoc (a b c : string) :
  ((a ++ b) ++ c)%string = (a ++ (b ++ c))%string.
Proof.
  induction a as [|x a IH]; [reflexivity|].
  change (String x ((a ++ b) ++ c)%string = String x (a ++ (b ++ c))%string).
  now f_equal.
Qed.

(** X16. [createProxyUrl] pastes the credentials into the URL as they are:
    nothing is escaped, so an [@] in the password cannot be told from the
    [@] that ends the credentials, and two different settings give the same
    URL. *)
Theorem proxy_credentials_are_not_escaped (u : option string) (p q e : string) :
  createProxyUrl (mkProxy u (Some (p ++ "@" ++ q)%string) (Some e))
  = createProxyUrl (mkProxy u (Some p) (Some (q ++ "@" ++ e)%string)).
Proof.
  unfold createProxyUrl. cbn [username password endpoint template].
  do 3 f_equal. now rewrite !string_app_assoc.
Qed.

(** X17. [initializeBrowserWithNewIP] never starts a browser that is not
    behind the forwarding proxy: [puppeteer.launch] is called at most once,
    only after [anonymizeProxy] has returned a URL for
    [createProxyUrl(config)], and always with [--proxy-server=] that URL;
    when [anonymizeProxy] throws, no browser is started and the exception
    is passed on.  The function returns only when all three calls went
    through. *)
Theorem browser_is_always_behind_the_proxy (env : setup_env) (c : proxy_fields) :
  let out := initializeBrowserWithNewIP env c in
  head (snd out) = Some (AnonymizeProxy (createProxyUrl c))
  /\ (length (browser_launches (snd out)) <= 1)%nat
  /\ (forall args, args ∈ browser_launches (snd out) ->
        exists newProxyUrl,
          anonymize_answer env = Ok newProxyUrl
          /\ args = [ "--no-sandbox"; "--disable-setuid-sandbox";
                      ("--proxy-server=" ++ newProxyUrl)%string ])
  /\ (forall e, anonymize_answer env = Throw e ->
        fst out = Throw e /\ browser_launches (snd out) = [])
  /\ (fst out = Ok tt
      <-> (exists newProxyUrl, anonymize_answer env = Ok newProxyUrl)
          /\ puppeteer_answer env = Ok tt /\ new_page_answer env = Ok tt).
Proof.
  unfold initializeBrowserWithNewIP.
  destruct (anonymize_answer env) as [newProxyUrl|e0].
  - destruct (puppeteer_answer env) as [[]|e1];
      [destruct (new_page_answer env) as [[]|e2]|];
      cbn; (split; [reflexivity|]); (split; [lia|]);
      (split; [intros args Hin; apply list_elem_of_singleton in Hin;
               exists newProxyUrl; now split|]);
      (split; [intros e; discriminate|]).
    + split; [intros _; split; [now exists newProxyUrl | now split] | reflexivity].
    + split; [discriminate | intros (_ & _ & H); discriminate H].
    + split; [discriminate | intros (_ & H & _); discriminate H].
  - cbn. split; [reflexivity|]. split; [lia|].
    split; [intros args Hin; now apply elem_of_nil in Hin|].
    split; [intros e [= ->]; now split|].
    split; [discriminate | intros ((x & H) & _); discriminate H].
Qed.

Lemma browser_is_always_behind_the_proxy_witness :
  anonymize_answer (mkSetupEnv (Throw "connect ECONNREFUSED") (Ok tt) (Ok tt))
  = Throw "connect ECONNREFUSED"
  /\ fst (initializeBrowserWithNewIP
            (mkSetupEnv (Throw "connect ECONNREFUSED") (Ok tt) (Ok tt))
            (mkProxy (Some "user") (Some "secret") (Some "proxy.example.org:8000")))
     = Throw "connect ECONNREFUSED"
  /\ browser_launches
       (snd (initializeBrowserWithNewIP
               (mkSetupEnv (Throw "connect ECONNREFUSED") (Ok tt) (Ok tt))
               (mkProxy (Some "user") (Some "secret")
                  (Some "proxy.example.org:8000")))) = [].
Proof.
  split; [reflexivity|].
  exact (proj1 (proj2 (proj2 (proj2
           (browser_is_always_behind_the_proxy
              (mkSetupEnv (Throw "connect ECONNREFUSED") (Ok tt) (Ok tt))
              (mkProxy (Some "user") (Some "secret")
                 (Some "proxy.example.org:8000"))))))
           "connect ECONNREFUSED" eq_refl).
Defined.

(** ** Pauses *)

Lemma trace_grows_refl (s : store) : trace_grows s s.
Proof. exists []. now rewrite app_nil_r. Qed.

Lemma trace_grows_trans (s1 s2 s3 : store) :
  trace_grows s1 s2 -> trace_grows s2 s3 -> trace_grows s1 s3.
Proof.
  intros [m1 H1] [m2 H2]. exists (m1 ++ m2). now rewrite H2, H1, app_assoc.
Qed.

Lemma extends_trace_ret {A} (a : A) : extends_trace (ret a).
Proof. intros s. apply trace_grows_refl. Qed.

Lemma extends_trace_throw {A} (e : string) : extends_trace (@throw A e).
Proof. intros s. apply trace_grows_refl. Qed.

Lemma extends_trace_emit (ev : event) : extends_trace (emit ev).
Proof. intros s. now exists [ev]. Qed.

Lemma extends_trace_log (m : message) : extends_trace (log m).
Proof. apply extends_trace_emit. Qed.

Lemma extends_trace_sleep (ms : Q) : extends_trace (sleep ms).
Proof. apply extends_trace_emit. Qed.

Lemma extends_trace_call {A} (ev : event) (answer : result A) :
  extends_trace (call ev answer).
Proof. intros s. now exists [ev]. Qed.

Lemma extends_trace_push (v : vote) : extends_trace (push_vote v).
Proof. intros s. exists []. cbn. now rewrite app_nil_r. Qed.

Lemma extends_trace_bind {A B} (m : M A) (k : A -> M B) :
  extends_trace m -> (forall a, extends_trace (k a)) -> extends_trace (bind m k).
Proof.
  intros Hm Hk s. unfold bind. specialize (Hm s).
  destruct (m s) as [[a|e] s1]; cbn [snd] in Hm |- *; [|exact Hm].
  eapply trace_grows_trans; [exact Hm | apply Hk].
Qed.

Lemma extends_trace_try {A} (m : M A) (h : string -> M A) :
  extends_trace m -> (forall e, extends_trace (h e)) ->
  extends_trace (try_catch m h).
Proof.
  intros Hm Hh s. unfold try_catch. specialize (Hm s).
  destruct (m s) as [[a|e] s1]; cbn [snd] in Hm |- *; [exact Hm|].
  eapply trace_grows_trans; [exact Hm | apply Hh].
Qed.

Lemma extends_trace_for {R} (body : Z -> M (ctl R)) (rounds : nat) :
  (forall i, extends_trace (body i)) ->
  forall i, extends_trace (for_from rounds i body).
Proof.
  intros Hb. induction rounds as [|n IH]; intros i.
  - apply extends_trace_ret.
  - cbn [for_from]. apply extends_trace_bind; [apply Hb|].
    intros [|v]; [apply IH | apply extends_trace_ret].
Qed.

Lemma extends_trace_if {A} (b : bool) (m1 m2 : M A) :
  extends_trace m1 -> extends_trace m2 -> extends_trace (if b then m1 else m2).
Proof. now destruct b. Qed.

Create HintDb growth.
#[local] Hint Resolve extends_trace_ret extends_trace_throw extends_trace_emit
  extends_trace_log extends_trace_sleep extends_trace_call extends_trace_push
  extends_trace_bind extends_trace_try extends_trace_for extends_trace_if
  : growth.
#[local] Hint Extern 2 (extends_trace (match ?x with _ => _ end)) =>
  destruct x : growth.

Lemma vote_loop_extends_trace (voteForMain : Q -> bool) (sel : selectors)
    (minDelay maxDelay : Z) (envs : Z -> vote_env) (times : Z) :
  extends_trace (vote_loop voteForMain sel minDelay maxDelay envs times).
Proof.
  unfold vote_loop, for_loop. apply extends_trace_bind; [|auto with growth].
  apply extends_trace_for. intros i. unfold vote_round. auto 20 with growth.
Qed.

Lemma session_end_run (t quota : Z) (pause : Q) (s : store) :
  (log MsgClosing ;;; emit EClose ;;; log MsgClosed ;;;
   (if t <? quota then log (MsgWaiting (pause / 1000)%Q) ;;; sleep pause
    else ret tt) ;;;
   ret t) s
  = (Ok t, mkStore (votes s) (statistics s)
             (trace s ++ session_end_events t quota pause)).
Proof.
  unfold session_end_events, bind, log, sleep, emit, ret.
  destruct (t <? quota); cbn [fst snd votes statistics trace];
    flatten_trace; reflexivity.
Qed.

(** The part of a session between navigation and the closing of the
    browser does not throw and only extends the trace. *)
Lemma indexjs_session_body (cfg : IndexJs.config) (env : session_env)
    (total : Z) (s : store) :
  exists t s1 mid,
    try_catch
      (handleConsents (consent env) (IndexJs.cfg_selectors cfg) ;;;
       sleep 1000 ;;;
       log MsgWaitingTop20 ;;;
       call (EWaitFor (top20List (IndexJs.cfg_selectors cfg))) (top20_answer env) ;;;
       log (MsgWillVote (randomInterval (batch_draw env) 1 5)) ;;;
       votingSuccessful <-
         IndexJs.voteMultipleTimes (vote_envs env) (IndexJs.cfg_selectors cfg)
           (randomInterval (batch_draw env) 1 5) 3000 7000 ;;
       if votingSuccessful : bool then
         log (MsgBatchCompleted (total + randomInterval (batch_draw env) 1 5)) ;;;
         ret (total + randomInterval (batch_draw env) 1 5)
       else
         ret total)
      (fun error => log (MsgVotingProcessError error) ;;; ret total) s
    = (Ok t, s1)
    /\ trace s1 = trace s ++ mid.
Proof.
  match goal with
  | |- exists t s1 mid, ?m s = _ /\ _ =>
      assert (Hn : never_throws m) by auto with nothrow;
      assert (Hg : extends_trace m)
  end.
  { apply extends_trace_try; [|auto with growth].
    apply extends_trace_bind; [unfold handleConsents; auto 12 with growth|].
    intros _. do 4 (apply extends_trace_bind; [auto with growth|]; intros _).
    apply extends_trace_bind; [|intros b; auto with growth].
    unfold IndexJs.voteMultipleTimes. apply extends_trace_try;
      [apply vote_loop_extends_trace | auto with growth]. }
  destruct (Hn s) as [t Ht]. destruct (Hg s) as [mid Hmid].
  match goal with
  | |- exists t s1 mid, ?m s = _ /\ _ => destruct (m s) as [r s1]
  end.
  cbn in Ht, Hmid. subst r. now exists t, s1, mid.
Qed.

Lemma timeboxed_session_body (cfg : TimeBoxed.config) (env : session_env)
    (total : Z) (s : store) :
  exists t s1 mid,
    try_catch
      (handleConsents (consent env) (TimeBoxed.cfg_selectors cfg) ;;;
       sleep 1000 ;;;
       log MsgWaitingTop20 ;;;
       call (EWaitFor (top20List (TimeBoxed.cfg_selectors cfg)))
         (top20_answer env) ;;;
       log (MsgWillVote 5) ;;;
       votingSuccessful <-
         TimeBoxed.voteMultipleTimes cfg (vote_envs env)
           (TimeBoxed.cfg_selectors cfg) 5 3000 7000 ;;
       if votingSuccessful : bool then
         log (MsgBatchCompleted (total + 5)) ;;;
         ret (total + 5)
       else
         ret total)
      (fun error => log (MsgVotingProcessError error) ;;; ret total) s
    = (Ok t, s1)
    /\ trace s1 = trace s ++ mid.
Proof.
  match goal with
  | |- exists t s1 mid, ?m s = _ /\ _ =>
      assert (Hn : never_throws m) by auto with nothrow;
      assert (Hg : extends_trace m)
  end.
  { apply extends_trace_try; [|auto with growth].
    apply extends_trace_bind; [unfold handleConsents; auto 12 with growth|].
    intros _. do 4 (apply extends_trace_bind; [auto with growth|]; intros _).
    apply extends_trace_bind; [|intros b; auto with growth].
    apply vote_loop_extends_trace. }
  destruct (Hn s) as [t Ht]. destruct (Hg s) as [mid Hmid].
  match goal with
  | |- exists t s1 mid, ?m s = _ /\ _ => destruct (m s) as [r s1]
  end.
  cbn in Ht, Hmid. subst r. now exists t, s1, mid.
Qed.

Lemma navigation_fails_run (env : nav_env) (url : string) (timeout : Z)
    (s : store) :
  nav_reaches env = false ->
  exists e0 e1 e2,
    navigateWithRetry env url 3 timeout s
    = (Ok (Some false),
       mkStore (votes s) (statistics s)
         (trace s ++ failed_navigation_events env url e0 e1 e2)).
Proof.
  intros Hnav. rewrite navigateWithRetry_unfold.
  unfold nav_reaches, goto_ok in Hnav.
  destruct (goto_answer env 0) as [|e0]; [discriminate Hnav|].
  destruct (goto_answer env 1) as [|e1]; [discriminate Hnav|].
  destruct (goto_answer env 2) as [|e2]; [discriminate Hnav|].
  exists e0, e1, e2. reflexivity.
Qed.

Lemma navigation_succeeds_run (env : nav_env) (url : string) (timeout : Z)
    (s : store) :
  nav_reaches env = true ->
  exists s1 mid,
    navigateWithRetry env url 3 timeout s = (Ok (Some true), s1)
    /\ trace s1 = trace s ++ mid.
Proof.
  intros Hnav. rewrite navigateWithRetry_unfold.
  unfold nav_reaches, goto_ok in Hnav.
  destruct (goto_answer env 0) as [|e0]; [eexists _, _; split; reflexivity|].
  destruct (goto_answer env 1) as [|e1]; [eexists _, _; split; reflexivity|].
  destruct (goto_answer env 2) as [|e2]; [eexists _, _; split; reflexivity|].
  discriminate Hnav.
Qed.

(** X18. How a round of the outer loop ends, once the browser is up (in the
    time-boxed variant: inside the window).  If navigation succeeded, then
    whatever happened in the batch the round ends by closing the browser,
    followed by the pause between sessions exactly when the total is still
    below the quota: the last session of a run is not followed by a pause.
    If navigation failed, the browser is closed and the round ends at once:
    its only pauses are the two backoff pauses of the navigation, and the
    next session starts without the pause between sessions. *)
Theorem pause_between_sessions :
  (forall (cfg : IndexJs.config) (env : session_env) (total : Z) (s : store),
      launch_answer env = Ok tt ->
      (nav_reaches (nav env) = true ->
         exists t s' mid,
           IndexJs.main_round cfg env total s = (Ok t, s')
           /\ trace s'
              = trace s ++ mid
                  ++ session_end_events t (IndexJs.maxVotes cfg)
                       (IndexJs.delayBetweenSessions cfg))
      /\ (nav_reaches (nav env) = false ->
          exists e0 e1 e2,
            IndexJs.main_round cfg env total s
            = (Ok total,
               mkStore (votes s) (statistics s)
                 (trace s ++ [ELog MsgNewSession; ELaunch]
                    ++ failed_navigation_events (nav env) (IndexJs.targetPage cfg)
                         e0 e1 e2
                    ++ [ELog MsgNavigationGaveUp; EClose]))))
  /\ (forall (cfg : TimeBoxed.config) (env : session_env) (total : Z) (s : store),
        TimeBoxed.window_start cfg <= hour env < TimeBoxed.window_end cfg ->
        launch_answer env = Ok tt ->
        (nav_reaches (nav env) = true ->
           exists t s' mid,
             TimeBoxed.main_round cfg env total s = (Ok t, s')
             /\ trace s'
                = trace s ++ mid
                    ++ session_end_events t (TimeBoxed.maxVotes cfg)
                         (TimeBoxed.delayBetweenBatches cfg))
        /\ (nav_reaches (nav env) = false ->
            exists e0 e1 e2,
              TimeBoxed.main_round cfg env total s
              = (Ok total,
                 mkStore (votes s) (statistics s)
                   (trace s ++ [ELog MsgNewSession; ELaunch]
                      ++ failed_navigation_events (nav env)
                           (TimeBoxed.targetPage cfg) e0 e1 e2
                      ++ [ELog MsgNavigationGaveUp; EClose])))).
Proof.
  split.
  - intros cfg env total s Hl. split; intros Hnav.
    + unfold IndexJs.main_round. rewrite Hl.
      unfold bind at 1, log at 1, emit at 1. cbn iota beta.
      unfold bind at 1, call at 1. cbn iota beta.
      unfold bind at 1.
      match goal with
      | |- context [navigateWithRetry ?e ?u 3 ?to ?s0] =>
          destruct (navigation_succeeds_run e u to s0 Hnav)
            as (s1 & mid1 & Hrun & Ht1)
      end.
      rewrite Hrun. cbn iota beta. cbn [truthy negb]. cbn iota.
      unfold bind at 1.
      destruct (indexjs_session_body cfg env total s1)
        as (t & s2 & mid2 & Hbody & Ht2).
      rewrite Hbody. cbn iota beta.
      rewrite session_end_run.
      exists t. eexists. exists ([ELog MsgNewSession; ELaunch] ++ mid1 ++ mid2).
      split; [reflexivity|]. cbn [trace]. rewrite Ht2, Ht1. cbn [trace].
      rewrite <- !app_assoc. reflexivity.
    + unfold IndexJs.main_round. rewrite Hl.
      unfold bind at 1, log at 1, emit at 1. cbn iota beta.
      unfold bind at 1, call at 1. cbn iota beta.
      unfold bind at 1.
      match goal with
      | |- context [navigateWithRetry ?e ?u 3 ?to ?s0] =>
          destruct (navigation_fails_run e u to s0 Hnav) as (e0 & e1 & e2 & Hrun)
      end.
      rewrite Hrun. cbn iota beta. cbn [truthy negb]. cbn iota.
      exists e0, e1, e2.
      unfold bind, log, emit, ret. cbn [fst snd votes statistics trace].
      rewrite <- !app_assoc. reflexivity.
  - intros cfg env total s Hw Hl. apply isWithinVoteWindow_spec in Hw.
    split; intros Hnav.
    + unfold TimeBoxed.main_round. rewrite Hw, Hl. cbn [negb].
      unfold bind at 1, log at 1, emit at 1. cbn iota beta.
      unfold bind at 1, call at 1. cbn iota beta.
      unfold bind at 1.
      match goal with
      | |- context [navigateWithRetry ?e ?u 3 ?to ?s0] =>
          destruct (navigation_succeeds_run e u to s0 Hnav)
            as (s1 & mid1 & Hrun & Ht1)
      end.
      rewrite Hrun. cbn iota beta. cbn [truthy negb]. cbn iota.
      unfold bind at 1.
      destruct (timeboxed_session_body cfg env total s1)
        as (t & s2 & mid2 & Hbody & Ht2).
      rewrite Hbody. cbn iota beta.
      rewrite session_end_run.
      exists t. eexists. exists ([ELog MsgNewSession; ELaunch] ++ mid1 ++ mid2).
      split; [reflexivity|]. cbn [trace]. rewrite Ht2, Ht1. cbn [trace].
      rewrite <- !app_assoc. reflexivity.
    + unfold TimeBoxed.main_round. rewrite Hw, Hl. cbn [negb].
      unfold bind at 1, log at 1, emit at 1. cbn iota beta.
      unfold bind at 1, call at 1. cbn iota beta.
      unfold bind at 1.
      match goal with
      | |- context [navigateWithRetry ?e ?u 3 ?to ?s0] =>
          destruct (navigation_fails_run e u to s0 Hnav) as (e0 & e1 & e2 & Hrun)
      end.
      rewrite Hrun. cbn iota beta. cbn [truthy negb]. cbn iota.
      exists e0, e1, e2.
      unfold bind, log, emit, ret. cbn [fst snd votes statistics trace].
      rewrite <- !app_assoc. reflexivity.
Qed.

Lemma pause_between_sessions_witness :
  launch_answer (example_session 10) = Ok tt
  /\ nav_reaches (nav (example_session 10)) = true
  /\ exists t s' mid,
       IndexJs.main_round small_config (example_session 10) 6 initial_store
       = (Ok t, s')
       /\ trace s'
          = trace initial_store ++ mid
              ++ session_end_events t (IndexJs.maxVotes small_config)
                   (IndexJs.delayBetweenSessions small_config).
Proof.
  split; [reflexivity|]. split; [reflexivity|].
  exact (proj1 (proj1 pause_between_sessions small_config (example_session 10) 6
                  initial_store eq_refl) eq_refl).
Defined.


